(** * FarmAI forum moderation: scanner, warning ledger and access gate

    A shallow embedding of
    - [utils/contentModeration.js]: [abusiveWords], [normalizeText],
      [containsAbusiveLanguage], [moderateContent];
    - the forum router that requires it: [checkForumAccess],
      [handleContentModeration];
    and the properties of the forum moderation state machine.
    Further modules embed the submission and voting handlers of the
    forum router and, from [routes/cropCalendar.js],
    [getSeasonFromDate], [generateTasksFromTemplate] and the handlers
    that create a calendar, complete a task and deactivate a calendar.

    Modelling conventions.
    - A JavaScript string is a [list ascii]; a character is read as the
      code unit of the same number, so the model covers the texts whose
      code units lie in U+0000..U+00FF.  The character classes below are
      the ECMAScript ones restricted to that range.
    - A [Date] is its time value, a number of milliseconds, in [Z].
    - The user document is a record; a field that the code guards with
      [|| 0], [|| []] or a truthiness test is an [option].
    - The handlers run in a small state monad over a [World]: the time
      zone of the process, the successive readings of the system clock
      ([new Date()]) and the persisted user collection
      ([User.findById], [user.save()]).  The document object that
      JavaScript mutates in place is returned next to the result. *)

From Stdlib Require Import ZArith Ascii String List Sorted DecimalString.
From stdpp Require Import gmap strings list fin_maps.

Local Open Scope bool_scope.

(** ** Characters and strings *)

Module Js.

(** The text of a string literal, as a list of code units. *)
Definition chars (s : string) : list ascii := list_ascii_of_string s.

Definition code (c : ascii) : N := N_of_ascii c.

Definition inRange (lo hi : N) (c : ascii) : bool :=
  (lo <=? code c)%N && (code c <=? hi)%N.

(** [/[A-Z]/] *)
Definition isUpperAZ (c : ascii) : bool := inRange 65 90 c.

(** [\w], that is [[A-Za-z0-9_]]. *)
Definition isWordChar (c : ascii) : bool :=
  inRange 65 90 c || inRange 97 122 c || inRange 48 57 c || (code c =? 95)%N.

(** [\s]: TAB, LF, VT, FF, CR, SPACE and NO-BREAK SPACE.  [trim] strips
    the same characters. *)
Definition isSpace (c : ascii) : bool :=
  inRange 9 13 c || (code c =? 32)%N || (code c =? 160)%N.

(** [.] without the [s] flag: any character but a line terminator. *)
Definition isDot (c : ascii) : bool :=
  negb ((code c =? 10)%N || (code c =? 13)%N).

(** [String.prototype.toLowerCase], one code unit at a time: A..Z and the
    capital letters U+00C0..U+00DE (but the sign U+00D7) move up by 32. *)
Definition lowerChar (c : ascii) : ascii :=
  if inRange 65 90 c || (inRange 192 222 c && negb (code c =? 215)%N)
  then ascii_of_N (code c + 32) else c.

Definition toLowerCase (s : list ascii) : list ascii := map lowerChar s.

Definition space : ascii := " "%char.

(** [s.replace(/[^\w\s]/g, ' ')] *)
Definition replaceSpecial (s : list ascii) : list ascii :=
  map (fun c => if isWordChar c || isSpace c then c else space) s.

(** [s.replace(/\s+/g, ' ')]: every maximal run of white space becomes
    one space.  [inRun] tells that the previous character was white
    space, so that the run has already been replaced. *)
Fixpoint collapseFrom (inRun : bool) (s : list ascii) : list ascii :=
  match s with
  | [] => []
  | c :: r =>
      if isSpace c
      then (if inRun then collapseFrom true r else space :: collapseFrom true r)
      else c :: collapseFrom false r
  end.

Definition collapseSpaces (s : list ascii) : list ascii := collapseFrom false s.

Fixpoint dropSpaces (s : list ascii) : list ascii :=
  match s with
  | [] => []
  | c :: r => if isSpace c then dropSpaces r else s
  end.

(** [String.prototype.trim] *)
Definition trim (s : list ascii) : list ascii :=
  rev (dropSpaces (rev (dropSpaces s))).

Fixpoint startsWith (s t : list ascii) {struct t} : bool :=
  match t, s with
  | [], _ => true
  | _ :: _, [] => false
  | a :: t', b :: s' => bool_decide (a = b) && startsWith s' t'
  end.

(** [s.includes(t)] *)
Fixpoint includes (s t : list ascii) : bool :=
  startsWith s t ||
  match s with
  | [] => false
  | _ :: s' => includes s' t
  end.

(** [parts.join(sep)] *)
Fixpoint join (sep : list ascii) (parts : list (list ascii)) : list ascii :=
  match parts with
  | [] => []
  | [p] => p
  | p :: rest => p ++ sep ++ join sep rest
  end.

(** [[...new Set(l)]]: the first occurrence of each element, in order. *)
Definition dedupe (l : list (list ascii)) : list (list ascii) :=
  fold_left (fun acc x => if bool_decide (x ∈ acc) then acc else acc ++ [x]) l [].

(** The decimal text of an integer, as a template literal prints it. *)
Definition showInt (z : Z) : list ascii :=
  chars (NilZero.string_of_int (Z.to_int z)).

(** The values a caller can pass where a string is expected. *)
Inductive Value :=
| VUndefined
| VNull
| VBool (b : bool)
| VNumber (n : Z)
| VNaN
| VString (s : list ascii)
| VObject.

(** [!v] is [negb (truthy v)]. *)
Definition truthy (v : Value) : bool :=
  match v with
  | VUndefined | VNull | VNaN => false
  | VBool b => b
  | VNumber n => negb (n =? 0)%Z
  | VString s => negb (bool_decide (s = []))
  | VObject => true
  end.

Definition isString (v : Value) : bool :=
  match v with VString _ => true | _ => false end.

End Js.

(** ** The moderation scanner ([contentModeration.js]) *)

Module Scanner.
Import Js.

Definition abusiveWords : list (list ascii) :=
  map chars
    [ "damn"; "hell"; "crap"; "stupid"; "idiot"; "fool";
      "f***"; "s***"; "b****"; "a**"; "a***";
      "shut up"; "you are wrong"; "you dont know"; "you are lying";
      "hate you"; "kill yourself"; "you should die";
      "buy now"; "click here"; "free money"; "get rich quick" ]%string.

Definition normalizeText (text : list ascii) : list ascii :=
  trim (collapseSpaces (replaceSpecial (toLowerCase text))).

Inductive Severity := high | medium | low.

(** The object that [containsAbusiveLanguage] returns; the early return
    has no [severity]. *)
Record ScanResult := mkScanResult {
  isAbusive : bool;
  detectedWords : list (list ascii);
  severity : option Severity
}.

(** The [for] loop over [abusiveWords]. *)
Definition matchedWords (normalizedText : list ascii) : list (list ascii) :=
  filter (fun word => includes normalizedText (normalizeText word) = true) abusiveWords.

(** [(text.match(/[A-Z]/g) || []).length > text.length * 0.5 &&
    text.length > 10]; the comparison with half the length is exact on
    doubled integers. *)
Definition excessiveCaps (text : list ascii) : bool :=
  (length text <? 2 * length (filter (fun c => isUpperAZ c = true) text))%nat
  && (10 <? length text)%nat.

(** [/(.)\1{4,}/.test(text)]: at some position a character matched by
    [.] is followed by four more copies of itself. *)
Fixpoint repeatedChars (text : list ascii) : bool :=
  match text with
  | [] => false
  | c :: r => (isDot c && startsWith r [c; c; c; c]) || repeatedChars r
  end.

Definition spam_pattern : list ascii := chars "spam_pattern".

Definition containsAbusiveLanguage (text : Value) : ScanResult :=
  match text with
  | VString s =>
      if truthy text then
        let normalizedText := normalizeText s in
        let detected :=
          matchedWords normalizedText ++
          (if excessiveCaps s || repeatedChars s then [spam_pattern] else []) in
        {| isAbusive := (0 <? length detected)%nat;
           detectedWords := dedupe detected;
           severity := Some (if (2 <? length detected)%nat then high
                             else if (0 <? length detected)%nat then medium
                             else low) |}
      else {| isAbusive := false; detectedWords := []; severity := None |}
  | _ => {| isAbusive := false; detectedWords := []; severity := None |}
  end.

(** [title ? `${title} ${content}` : content] *)
Definition fullText (content title : list ascii) : list ascii :=
  if truthy (VString title) then title ++ space :: content else content.

Definition moderateContent (content title : list ascii) : ScanResult :=
  containsAbusiveLanguage (VString (fullText content title)).

End Scanner.

(** ** The warning ledger and the access gate (forum router) *)

Module Forum.
Import Js Scanner.

Local Open Scope Z_scope.

(** [1000 * 60 * 60 * 24] *)
Definition msPerDay : Z := 1000 * 60 * 60 * 24.

(** [Math.ceil(a / b)] for an integer [a] and a positive integer [b].
    The time values of two dates differ by less than 2^53 and [b] is
    [msPerDay], so the double division cannot round onto an integer and
    the ceiling is the one of the exact quotient. *)
Definition ceilDiv (a b : Z) : Z := - ((- a) / b).

(** The zone of the process is its [LocalTZA(t, isUTC)]: the offset of
    local time from UTC in milliseconds, at the UTC time value [t] when
    [isUTC] and at the local time value [t] otherwise. *)
Definition Zone : Type := Z → bool → Z.

(** [LocalTime(t)] and [UTC(t)] *)
Definition localTime (tza : Zone) (t : Z) : Z := t + tza t true.
Definition utcTime (tza : Zone) (t : Z) : Z := t - tza t false.

(** [d.setDate(d.getDate() + n)] on the time value [t].  [getDate] is
    the day of the month of the local time; [setDate] makes the day from
    the local year and month and that day number, which is the local day
    [n] days on, keeps the local time within the day, and stores the UTC
    time value of the result: the same local time of day [n] calendar
    days later. *)
Definition addDays (tza : Zone) (t n : Z) : Z :=
  utcTime tza (localTime tza t + n * msPerDay).

(** An element of [user.forumWarningHistory]. *)
Record WarningEntry := mkWarningEntry {
  date : Z;
  reason : list ascii;
  content : list ascii
}.

(** The moderation fields of the user document. *)
Record User := mkUser {
  _id : string;
  forumWarnings : option Z;
  forumWarningHistory : option (list WarningEntry);
  isBlockedFromForum : bool;
  forumBlockedUntil : option Z
}.

(** [user.forumWarnings || 0] and [user.forumWarningHistory || []]. *)
Definition warningCount (u : User) : Z := default 0 (forumWarnings u).
Definition warningHistory (u : User) : list WarningEntry :=
  default [] (forumWarningHistory u).

Definition setWarnings (n : Z) (u : User) : User :=
  mkUser (_id u) (Some n) (forumWarningHistory u) (isBlockedFromForum u)
         (forumBlockedUntil u).
Definition setHistory (h : list WarningEntry) (u : User) : User :=
  mkUser (_id u) (forumWarnings u) (Some h) (isBlockedFromForum u)
         (forumBlockedUntil u).
Definition setBlocked (b : bool) (u : User) : User :=
  mkUser (_id u) (forumWarnings u) (forumWarningHistory u) b
         (forumBlockedUntil u).
Definition setBlockedUntil (t : option Z) (u : User) : User :=
  mkUser (_id u) (forumWarnings u) (forumWarningHistory u)
         (isBlockedFromForum u) t.

(** *** The world of a request handler *)

Record World := mkWorld {
  localTZA : Zone;            (* the time zone the process runs in *)
  clock : nat → Z;            (* the successive readings of the system clock *)
  ticks : nat;                (* how many readings were taken *)
  users : gmap string User    (* the persisted collection, by [_id] *)
}.

Definition M (A : Type) : Type := World → A * World.

#[export] Instance M_ret : MRet M := λ A a w, (a, w).
#[export] Instance M_bind : MBind M :=
  λ A B k m w, let '(a, w') := m w in k a w'.

(** [new Date()] *)
Definition newDate : M Z :=
  λ w, (clock w (ticks w), mkWorld (localTZA w) (clock w) (S (ticks w)) (users w)).

(** [User.findById(id)] *)
Definition findById (id : string) : M (option User) :=
  λ w, (users w !! id, w).

(** [d.setDate(d.getDate() + n)] in the zone of the process *)
Definition plusDays (t n : Z) : M Z :=
  λ w, (addDays (localTZA w) t n, w).

(** [user.save()] *)
Definition save (u : User) : M unit :=
  λ w, (tt, mkWorld (localTZA w) (clock w) (ticks w) (<[_id u := u]> (users w))).

(** *** [checkForumAccess] *)

(** What the middleware does with the request: one of its three
    responses, or [next()] with [req.user] set to the loaded document. *)
Inductive GateResult :=
| notFound
    (* 404 { error: 'User not found' } *)
| deniedPermanent (error : list ascii) (warnings : option Z)
    (* 403 { error, blocked: true, warnings } *)
| deniedTemporary (error : list ascii) (blockedUntil : Z) (warnings : option Z)
    (* 403 { error, blocked: true, blockedUntil, warnings } *)
| next (user : User).

Definition permanentDenial : list ascii :=
  chars "You have been blocked from the forum due to repeated violations of community guidelines.".

Definition temporaryDenial (daysRemaining : Z) : list ascii :=
  chars "You are temporarily blocked from the forum. Access will be restored in "
  ++ showInt daysRemaining ++ chars " day(s).".

Definition checkForumAccess (reqUserId : string) : M GateResult :=
  found ← findById reqUserId;
  match found with
  | None => mret notFound
  | Some user =>
      if isBlockedFromForum user
      then mret (deniedPermanent permanentDenial (forumWarnings user))
      else
        match forumBlockedUntil user with
        | None => mret (next user)
        | Some blockedUntil =>
            now ← newDate;
            if now <? blockedUntil then
              now' ← newDate;
              let daysRemaining := ceilDiv (blockedUntil - now') msPerDay in
              mret (deniedTemporary (temporaryDenial daysRemaining) blockedUntil
                                    (forumWarnings user))
            else
              now' ← newDate;
              if blockedUntil <=? now' then
                let user := setBlockedUntil None user in
                _ ← save user;
                mret (next user)
              else mret (next user)
        end
  end.

(** *** [handleContentModeration] *)

(** The four objects the helper returns. *)
Inductive Outcome :=
| permanentBlock (warnings : Z) (message : list ascii)
    (* { blocked: true, warnings, message } *)
| temporaryBlock (warnings : Z) (message : list ascii) (blockedUntil : Z)
    (* { blocked: true, warnings, message, blockedUntil } *)
| warning (warnings : Z) (message : list ascii) (detected : list (list ascii))
    (* { blocked: false, warned: true, warnings, message, detectedWords } *)
| noAction.
    (* { blocked: false, warned: false } *)

Definition blocked (o : Outcome) : bool :=
  match o with permanentBlock _ _ | temporaryBlock _ _ _ => true | _ => false end.

(** [undefined] on the two blocking objects reads as false. *)
Definition warned (o : Outcome) : bool :=
  match o with warning _ _ _ => true | _ => false end.

Definition message (o : Outcome) : option (list ascii) :=
  match o with
  | permanentBlock _ m | temporaryBlock _ m _ | warning _ m _ => Some m
  | noAction => None
  end.

Definition permanentMessage : list ascii :=
  chars "You have been permanently blocked from the forum due to repeated violations.".

Definition temporaryMessage : list ascii :=
  chars "You have been temporarily blocked from the forum for 7 days due to repeated violations.".

Definition warningMessage (warnings : Z) : list ascii :=
  chars "Warning: Your content contains inappropriate language. You have "
  ++ showInt warnings
  ++ chars " warning(s). After 3 warnings, you will be permanently blocked.".

Definition violationReason (detected : list (list ascii)) : list ascii :=
  chars "Detected abusive language: " ++ join (chars ", ") detected.

Definition handleContentModeration (user : User) (content title : list ascii)
  : M (Outcome * User) :=
  let moderationResult := moderateContent content title in
  if isAbusive moderationResult then
    let user := setWarnings (warningCount user + 1) user in
    now ← newDate;
    let user :=
      setHistory
        (warningHistory user ++
         [ {| date := now;
              reason := violationReason (detectedWords moderationResult);
              content := fullText content title |} ])
        user in
    if 3 <=? warningCount user then
      let user := setBlocked true user in
      _ ← save user;
      mret (permanentBlock (warningCount user) permanentMessage, user)
    else if warningCount user =? 2 then
      today ← newDate;
      blockUntil ← plusDays today 7;
      let user := setBlockedUntil (Some blockUntil) user in
      _ ← save user;
      mret (temporaryBlock (warningCount user) temporaryMessage blockUntil, user)
    else
      _ ← save user;
      mret (warning (warningCount user) (warningMessage (warningCount user))
                    (detectedWords moderationResult), user)
  else mret (noAction, user).

(** A run of ledger calls on one document: the document after each call. *)
Fixpoint ledgerTrace (calls : list (list ascii * list ascii)) (user : User)
  : M (list User) :=
  match calls with
  | [] => mret []
  | (content, title) :: rest =>
      r ← handleContentModeration user content title;
      later ← ledgerTrace rest r.2;
      mret (r.2 :: later)
  end.

End Forum.

(** ** The handlers of the forum router *)

Module Routes.
Import Js Scanner Forum.

(** A text field of [req.body], as the multipart parser leaves it:
    absent ([undefined]) or a string.  [present f] is the truth value of
    [f] in a condition. *)
Definition present (field : option (list ascii)) : bool :=
  match field with
  | Some s => truthy (VString s)
  | None => false
  end.

(** The fields [warnings], [blockedUntil] and [detectedWords] of the
    object returned by [handleContentModeration]; [None] is [undefined]. *)
Definition outcomeWarnings (o : Outcome) : option Z :=
  match o with
  | permanentBlock n _ | temporaryBlock n _ _ | warning n _ _ => Some n
  | noAction => None
  end.

Definition outcomeBlockedUntil (o : Outcome) : option Z :=
  match o with temporaryBlock _ _ t => Some t | _ => None end.

Definition outcomeDetectedWords (o : Outcome) : option (list (list ascii)) :=
  match o with warning _ _ d => Some d | _ => None end.

(** What the handlers of [POST /posts] and [POST /posts/:postId/replies]
    do with a submission: one of their three refusals, or they go on to
    store it ([proceed], with [req.user] as the ledger left it). *)
Inductive Submission :=
| badRequest (error : list ascii)
    (* 400 { error } *)
| forbidden (error : option (list ascii)) (warnings blockedUntil : option Z)
    (* 403 { success: false, error, blocked: true, warnings, blockedUntil } *)
| warnedRequest (error : option (list ascii)) (warnings : option Z)
                (detectedWords : option (list (list ascii)))
    (* 400 { success: false, error, warned: true, warnings, detectedWords } *)
| proceed (user : User).

(** The moderation step that the two handlers share. *)
Definition moderated (user : User) (content title : list ascii) : M Submission :=
  r ← handleContentModeration user content title;
  let moderationResult := r.1 in
  if blocked moderationResult then
    mret (forbidden (message moderationResult) (outcomeWarnings moderationResult)
                    (outcomeBlockedUntil moderationResult))
  else if warned moderationResult then
    mret (warnedRequest (message moderationResult) (outcomeWarnings moderationResult)
                        (outcomeDetectedWords moderationResult))
  else mret (proceed r.2).

(** [POST /posts], up to the construction of the post. *)
Definition createPost (user : User) (title content category : option (list ascii))
  : M Submission :=
  if negb (present title) || negb (present content) || negb (present category)
  then mret (badRequest (chars "Title, content, and category are required"))
  else moderated user (default [] content) (default [] title).

(** [POST /posts/:postId/replies], up to the loading of the post; the
    title parameter of the ledger takes its default, the empty string. *)
Definition addReply (user : User) (content : option (list ascii)) : M Submission :=
  if negb (present content)
  then mret (badRequest (chars "Content is required"))
  else moderated user (default [] content) [].

(** A request through the middleware chain [auth, checkForumAccess,
    upload, handler], for an authenticated user id and an accepted
    upload: the answer of the gate, or the one of the handler. *)
Inductive Answer :=
| fromGate (r : GateResult)
| fromHandler (s : Submission).

Definition throughGate (reqUserId : string) (handler : User → M Submission)
  : M Answer :=
  g ← checkForumAccess reqUserId;
  match g with
  | next user => s ← handler user; mret (fromHandler s)
  | _ => mret (fromGate g)
  end.

Definition postPosts (reqUserId : string)
    (title content category : option (list ascii)) : M Answer :=
  throughGate reqUserId (λ user, createPost user title content category).

Definition postReplies (reqUserId : string) (content : option (list ascii))
  : M Answer :=
  throughGate reqUserId (λ user, addReply user content).

End Routes.

(** ** Votes on posts and replies *)

Module Votes.

(** A reply of a post: its [_id] and its [upvotes]. *)
Record Reply := mkReply {
  reply_id : string;
  reply_upvotes : list string
}.

(** The fields of a post document that the voting handlers use. *)
Record ForumPost := mkForumPost {
  _id : string;
  upvotes : list string;
  replies : list Reply
}.

(** [arr.indexOf(x)]; [None] is -1. *)
Fixpoint indexOf (arr : list string) (x : string) : option nat :=
  match arr with
  | [] => None
  | y :: rest => if bool_decide (y = x) then Some 0%nat
                 else S <$> indexOf rest x
  end.

(** The toggle of both handlers: [splice(upvoteIndex, 1)] when the user
    is found, [push(userId)] otherwise. *)
Definition toggle (votes : list string) (userId : string) : list string :=
  match indexOf votes userId with
  | Some upvoteIndex => delete upvoteIndex votes
  | None => votes ++ [userId]
  end.

Inductive VoteResponse :=
| notFound (error : list ascii)
    (* 404 { error } *)
| voted (upvoted : bool) (upvoteCount : nat).
    (* { success: true, upvoted, upvoteCount } *)

(** [POST /posts/:postId/upvote]: [findById], toggle, [save]. *)
Definition upvotePost (postId userId : string) (posts : gmap string ForumPost)
  : VoteResponse * gmap string ForumPost :=
  match posts !! postId with
  | None => (notFound (Js.chars "Post not found"), posts)
  | Some post =>
      let upvoteIndex := indexOf (upvotes post) userId in
      let post := mkForumPost (_id post) (toggle (upvotes post) userId)
                              (replies post) in
      (voted (bool_decide (upvoteIndex = None)) (length (upvotes post)),
       <[_id post := post]> posts)
  end.

(** [post.replies.id(replyId)]: the first reply with that [_id], and
    its position in the array. *)
Fixpoint replyById (rs : list Reply) (replyId : string) : option (nat * Reply) :=
  match rs with
  | [] => None
  | r :: rest => if bool_decide (reply_id r = replyId) then Some (0%nat, r)
                 else prod_map S id <$> replyById rest replyId
  end.

(** [POST /posts/:postId/replies/:replyId/upvote]; the reply is changed
    in place, inside the array of its post. *)
Definition upvoteReply (postId replyId userId : string)
    (posts : gmap string ForumPost) : VoteResponse * gmap string ForumPost :=
  match posts !! postId with
  | None => (notFound (Js.chars "Post not found"), posts)
  | Some post =>
      match replyById (replies post) replyId with
      | None => (notFound (Js.chars "Reply not found"), posts)
      | Some (i, reply) =>
          let upvoteIndex := indexOf (reply_upvotes reply) userId in
          let reply := mkReply (reply_id reply)
                               (toggle (reply_upvotes reply) userId) in
          let post := mkForumPost (_id post) (upvotes post)
                                  (<[i := reply]> (replies post)) in
          (voted (bool_decide (upvoteIndex = None))
                 (length (reply_upvotes reply)),
           <[_id post := post]> posts)
      end
  end.

End Votes.

(** ** The crop calendar ([routes/cropCalendar.js]) *)

Module CropCalendar.
Import Js.

Local Open Scope Z_scope.

(** A [Date] as these functions use it: its time value and its month
    index in local time, both NaN ([None]) for an invalid date. *)
Record JsDate := mkJsDate {
  getTime : option Z;
  getMonth : option Z
}.

(** ['kharif'], ['rabi'], ['zaid'], ['year-round'] *)
Inductive Season := kharif | rabi | zaid | yearRound.

#[export] Instance Season_eq_dec : EqDecision Season.
Proof. solve_decision. Defined.

(** Every comparison with NaN is false. *)
Definition getSeasonFromDate (date : JsDate) : Season :=
  match getMonth date with
  | None => yearRound
  | Some m =>
      let month := m + 1 in
      if (6 <=? month) && (month <=? 10) then kharif
      else if (11 <=? month) || (month <=? 4) then rabi
      else if (3 <=? month) && (month <=? 6) then zaid
      else yearRound
  end.

Inductive TaskType := sowing | irrigation | fertilizer | pesticide | harvesting.

Record TaskTemplate := mkTaskTemplate {
  type : TaskType;
  title : list ascii;
  offsetDays : Z;
  stage : list ascii;
  recurring : option Z
}.

Record CropTemplate := mkCropTemplate {
  season : Season;
  durationDays : Z;
  tasks : list TaskTemplate
}.

Definition task (ty : TaskType) (ttl : string) (offset : Z) (stg : string)
    (rec : option Z) : TaskTemplate :=
  mkTaskTemplate ty (chars ttl) offset (chars stg) rec.

(** The object literal, as its entries in insertion order. *)
Definition cropTaskTemplates : list (list ascii * CropTemplate) :=
  [ (chars "tomato", mkCropTemplate kharif 90
      [ task sowing "Sow tomato seeds" 0 "Sowing" None;
        task irrigation "First irrigation" 3 "Germination" None;
        task fertilizer "Apply basal fertilizer (NPK)" 7 "Basal" None;
        task irrigation "Regular irrigation" 10 "Vegetative" (Some 3);
        task fertilizer "First top dressing" 21 "Vegetative" None;
        task pesticide "Preventive spray for early blight" 25 "Vegetative" None;
        task fertilizer "Second top dressing" 35 "Flowering" None;
        task pesticide "Spray for fruit borer" 45 "Flowering" None;
        task irrigation "Critical irrigation during flowering" 40 "Flowering" None;
        task fertilizer "Potash application for fruit quality" 50 "Fruiting" None;
        task pesticide "Late season disease control" 60 "Fruiting" None;
        task harvesting "Begin harvesting" 75 "Harvesting" None;
        task harvesting "Continue harvesting" 85 "Harvesting" None ]);
    (chars "wheat", mkCropTemplate rabi 120
      [ task sowing "Sow wheat seeds" 0 "Sowing" None;
        task irrigation "Pre-sowing irrigation" (-3) "Pre-Sowing" None;
        task fertilizer "Apply basal fertilizer" 0 "Basal" None;
        task irrigation "Crown root irrigation" 21 "Tillering" None;
        task fertilizer "First nitrogen top dressing" 21 "Tillering" None;
        task irrigation "Late tillering irrigation" 40 "Tillering" None;
        task fertilizer "Second nitrogen top dressing" 40 "Jointing" None;
        task irrigation "Jointing stage irrigation" 60 "Jointing" None;
        task pesticide "Rust disease spray if needed" 65 "Booting" None;
        task irrigation "Flowering irrigation" 75 "Flowering" None;
        task irrigation "Milk stage irrigation" 90 "Grain Filling" None;
        task irrigation "Dough stage irrigation" 100 "Grain Filling" None;
        task harvesting "Harvest wheat" 120 "Harvesting" None ]);
    (chars "rice", mkCropTemplate kharif 120
      [ task sowing "Prepare nursery and sow seeds" 0 "Nursery" None;
        task irrigation "Maintain water in nursery" 1 "Nursery" None;
        task fertilizer "Apply fertilizer in main field" 20 "Pre-Transplant" None;
        task sowing "Transplant seedlings" 25 "Transplanting" None;
        task irrigation "Maintain standing water" 30 "Tillering" (Some 5);
        task fertilizer "First top dressing (Nitrogen)" 35 "Tillering" None;
        task pesticide "Stem borer management" 40 "Tillering" None;
        task fertilizer "Second top dressing" 55 "Panicle Initiation" None;
        task irrigation "Critical irrigation during flowering" 70 "Flowering" None;
        task pesticide "Blast disease spray if needed" 75 "Flowering" None;
        task irrigation "Grain filling irrigation" 90 "Grain Filling" None;
        task irrigation "Stop irrigation" 110 "Maturity" None;
        task harvesting "Harvest rice" 120 "Harvesting" None ]);
    (chars "maize", mkCropTemplate kharif 100
      [ task sowing "Sow maize seeds" 0 "Sowing" None;
        task irrigation "First irrigation" 3 "Germination" None;
        task fertilizer "Apply basal fertilizer" 7 "Basal" None;
        task irrigation "Regular irrigation" 15 "Vegetative" (Some 7);
        task fertilizer "First top dressing" 25 "Vegetative" None;
        task pesticide "Pest control spray" 35 "Vegetative" None;
        task fertilizer "Second top dressing" 45 "Tasseling" None;
        task irrigation "Critical irrigation during tasseling" 50 "Tasseling" None;
        task irrigation "Silking stage irrigation" 60 "Silking" None;
        task harvesting "Harvest maize" 100 "Harvesting" None ]);
    (chars "cotton", mkCropTemplate kharif 150
      [ task sowing "Sow cotton seeds" 0 "Sowing" None;
        task irrigation "First irrigation" 5 "Germination" None;
        task fertilizer "Apply basal fertilizer" 10 "Basal" None;
        task irrigation "Regular irrigation" 15 "Vegetative" (Some 10);
        task fertilizer "First top dressing" 30 "Vegetative" None;
        task pesticide "Bollworm management" 45 "Flowering" None;
        task fertilizer "Second top dressing" 50 "Flowering" None;
        task pesticide "Late season pest control" 70 "Boll Formation" None;
        task harvesting "First picking" 120 "Harvesting" None;
        task harvesting "Second picking" 140 "Harvesting" None ]);
    (chars "sugarcane", mkCropTemplate yearRound 365
      [ task sowing "Plant sugarcane setts" 0 "Planting" None;
        task irrigation "First irrigation" 3 "Germination" None;
        task fertilizer "Apply basal fertilizer" 7 "Basal" None;
        task irrigation "Regular irrigation" 15 "Tillering" (Some 10);
        task fertilizer "First top dressing" 60 "Tillering" None;
        task fertilizer "Second top dressing" 120 "Grand Growth" None;
        task pesticide "Pest and disease control" 90 "Grand Growth" None;
        task harvesting "Harvest sugarcane" 365 "Harvesting" None ]);
    (chars "potato", mkCropTemplate rabi 90
      [ task sowing "Plant potato tubers" 0 "Planting" None;
        task irrigation "First irrigation" 3 "Germination" None;
        task fertilizer "Apply basal fertilizer" 7 "Basal" None;
        task irrigation "Regular irrigation" 10 "Vegetative" (Some 5);
        task fertilizer "First top dressing" 30 "Tuber Initiation" None;
        task irrigation "Critical irrigation during tuber formation" 40 "Tuber Formation" None;
        task pesticide "Late blight control" 50 "Tuber Formation" None;
        task harvesting "Harvest potatoes" 90 "Harvesting" None ]);
    (chars "onion", mkCropTemplate rabi 120
      [ task sowing "Sow onion seeds/transplant" 0 "Sowing" None;
        task irrigation "First irrigation" 3 "Germination" None;
        task fertilizer "Apply basal fertilizer" 7 "Basal" None;
        task irrigation "Regular irrigation" 10 "Vegetative" (Some 7);
        task fertilizer "First top dressing" 30 "Vegetative" None;
        task fertilizer "Second top dressing" 60 "Bulb Formation" None;
        task irrigation "Stop irrigation before harvest" 100 "Maturity" None;
        task harvesting "Harvest onions" 120 "Harvesting" None ]);
    (chars "soybean", mkCropTemplate kharif 100
      [ task sowing "Sow soybean seeds" 0 "Sowing" None;
        task irrigation "First irrigation" 3 "Germination" None;
        task fertilizer "Apply basal fertilizer" 7 "Basal" None;
        task irrigation "Regular irrigation" 15 "Vegetative" (Some 10);
        task fertilizer "First top dressing" 30 "Flowering" None;
        task pesticide "Pest control" 40 "Pod Formation" None;
        task harvesting "Harvest soybean" 100 "Harvesting" None ]);
    (chars "groundnut", mkCropTemplate kharif 110
      [ task sowing "Sow groundnut seeds" 0 "Sowing" None;
        task irrigation "First irrigation" 3 "Germination" None;
        task fertilizer "Apply basal fertilizer" 7 "Basal" None;
        task irrigation "Regular irrigation" 15 "Vegetative" (Some 10);
        task fertilizer "First top dressing" 30 "Flowering" None;
        task pesticide "Pest control" 50 "Pod Formation" None;
        task harvesting "Harvest groundnut" 110 "Harvesting" None ]) ].

(** The names of the properties that every object inherits from
    [Object.prototype]; each holds a function or an object. *)
Definition inheritedNames : list (list ascii) :=
  map chars
    [ "constructor"; "__defineGetter__"; "__defineSetter__"; "hasOwnProperty";
      "__lookupGetter__"; "__lookupSetter__"; "isPrototypeOf";
      "propertyIsEnumerable"; "toString"; "valueOf"; "__proto__";
      "toLocaleString" ]%string.

(** [cropTaskTemplates[key]]: a template of the table, an inherited
    member (truthy, without [season] or [tasks]), or [undefined]. *)
Inductive Lookup :=
| own (template : CropTemplate)
| inherited
| undefined.

Fixpoint ownTemplate (entries : list (list ascii * CropTemplate)) (key : list ascii)
  : option CropTemplate :=
  match entries with
  | [] => None
  | (name, template) :: rest =>
      if bool_decide (name = key) then Some template else ownTemplate rest key
  end.

Definition lookupTemplate (key : list ascii) : Lookup :=
  match ownTemplate cropTaskTemplates key with
  | Some template => own template
  | None => if bool_decide (key ∈ inheritedNames) then inherited else undefined
  end.

(** The largest time value of a [Date], and [TimeClip]. *)
Definition maxTime : Z := 8640000000000000.

Definition timeClip (t : Z) : option Z :=
  if Z.abs t <=? maxTime then Some t else None.

(** [d.setDate(d.getDate() + n)] on the time value of [d], in a zone of
    constant offset: [n] days later, and NaN when [d] is invalid or the
    result leaves the range of dates. *)
Definition setDatePlus (d : option Z) (n : Z) : option Z :=
  match d with
  | Some t => timeClip (t + n * Forum.msPerDay)
  | None => None
  end.

(** [new Date(d.getTime() + ms)] *)
Definition dateAfter (d : option Z) (ms : Z) : option Z :=
  match d with
  | Some t => timeClip (t + ms)
  | None => None
  end.

(** [a <= b] on two dates. *)
Definition dateLe (a b : option Z) : bool :=
  match a, b with
  | Some x, Some y => x <=? y
  | _, _ => false
  end.

(** An element of the generated [tasks]. *)
Record Task := mkTask {
  taskType : TaskType;
  taskTitle : list ascii;
  description : list ascii;
  scheduledDate : option Z;
  taskStage : list ascii
}.

Definition describe (stg : list ascii) : list ascii :=
  chars "Scheduled " ++ stg ++ chars " activity".

(** The body of [template.tasks.forEach]: what one task template pushes. *)
Definition expand (template : CropTemplate) (sowingDate : option Z)
    (taskTemplate : TaskTemplate) : list Task :=
  match recurring taskTemplate with
  | Some every =>
      if every =? 0 then
        [ mkTask (type taskTemplate) (title taskTemplate)
                 (describe (stage taskTemplate))
                 (setDatePlus sowingDate (offsetDays taskTemplate))
                 (stage taskTemplate) ]
      else
        flat_map
          (λ i : nat,
             let scheduled :=
               setDatePlus sowingDate
                 (offsetDays taskTemplate + Z.of_nat i * every) in
             if dateLe scheduled
                  (dateAfter sowingDate
                     (durationDays template * 24 * 60 * 60 * 1000))
             then [ mkTask (type taskTemplate)
                      (title taskTemplate ++ chars " (Week "
                         ++ showInt (Z.of_nat i + 1) ++ chars ")")
                      (describe (stage taskTemplate))
                      scheduled (stage taskTemplate) ]
             else [])
          (seq 0 10)
  | None =>
      [ mkTask (type taskTemplate) (title taskTemplate)
               (describe (stage taskTemplate))
               (setDatePlus sowingDate (offsetDays taskTemplate))
               (stage taskTemplate) ]
  end.

(** What a call of [generateTasksFromTemplate] does. *)
Inductive Generated :=
| throwsError (message : list ascii)
    (* throw new Error(`Crop template not found for: ${crop}`) *)
| throwsTypeError
    (* template.tasks is undefined *)
| returns (tasks : list Task) (season : Season) (expectedHarvestDate : option Z).

Definition generateTasksFromTemplate (crop : list ascii) (sowingDate : JsDate)
  : Generated :=
  match lookupTemplate (toLowerCase crop) with
  | undefined => throwsError (chars "Crop template not found for: " ++ crop)
  | inherited => throwsTypeError
  | own template =>
      returns (flat_map (expand template (getTime sowingDate)) (tasks template))
              (season template)
              (dateAfter (getTime sowingDate)
                         (durationDays template * 24 * 60 * 60 * 1000))
  end.

(** [cropSeason === 'year-round' || cropSeason === selectedSeason], where
    [cropSeason] is [template.season], [undefined] on an inherited member. *)
Definition isCompatible (cropSeason : option Season) (selectedSeason : Season)
  : bool :=
  match cropSeason with
  | Some s => bool_decide (s = yearRound) || bool_decide (s = selectedSeason)
  | None => false
  end.

Definition seasonOf (l : Lookup) : option Season :=
  match l with own template => Some (season template) | _ => None end.

(** The keys that [Object.keys(cropTaskTemplates).filter(...)] keeps for
    the recommended crops of a season. *)
Definition recommendedCrops (selectedSeason : Season) : list (list ascii) :=
  map fst
    (filter (λ entry, bool_decide (season entry.2 = yearRound)
                      || bool_decide (season entry.2 = selectedSeason) = true)
            cropTaskTemplates).

(** [POST /create], up to the construction of the calendar.  A field of
    the body is absent or empty ([None]) or given; a given [sowingDate]
    stands for the [Date] that [new Date(sowingDate)] builds from it. *)
Inductive Creation :=
| fieldsRequired
    (* 400 { error: 'Crop and sowing date are required' } *)
| cropNotFound
    (* 400 { error: 'Crop not found' } *)
| seasonMismatch (selectedSeason : Season) (cropSeason : option Season)
    (* 400 { error, selectedSeason, cropSeason, isCompatible: false } *)
| failed
    (* generateTasksFromTemplate throws: 500 *)
| calendar (crop : list ascii) (season : Season) (sowingDate : JsDate)
           (expectedHarvestDate : option Z) (tasks : list Task).

Definition create (crop : option (list ascii)) (sowingDate : option JsDate)
  : Creation :=
  match crop, sowingDate with
  | Some crop, Some date =>
      if negb (truthy (VString crop)) then fieldsRequired else
      let selectedSeason := getSeasonFromDate date in
      match lookupTemplate (toLowerCase crop) with
      | undefined => cropNotFound
      | template =>
          let cropSeason := seasonOf template in
          if negb (isCompatible cropSeason selectedSeason)
          then seasonMismatch selectedSeason cropSeason
          else
            match generateTasksFromTemplate crop date with
            | returns tasks season expectedHarvestDate =>
                calendar crop season date expectedHarvestDate tasks
            | _ => failed
            end
      end
  | _, _ => fieldsRequired
  end.

End CropCalendar.

(** ** Stored calendars: completing a task, deactivating a calendar *)

Module Completion.
Import Js.

Local Open Scope Z_scope.

(** The fields of a stored task and of a stored calendar that the two
    handlers use. *)
Record StoredTask := mkStoredTask {
  task_id : string;
  scheduledDate : Z;
  completed : bool;
  completedDate : option Z;
  notes : option (list ascii)
}.

Record Calendar := mkCalendar {
  _id : string;
  userId : string;
  active : bool;
  tasks : list StoredTask
}.

(** [CropCalendar.findOne({ _id: calendarId, userId })] *)
Definition findOne (calendars : gmap string Calendar) (calendarId user : string)
  : option Calendar :=
  match calendars !! calendarId with
  | Some calendar => if bool_decide (userId calendar = user) then Some calendar
                     else None
  | None => None
  end.

(** [calendar.tasks.id(taskId)]: the first task with that [_id], and its
    position. *)
Fixpoint taskById (ts : list StoredTask) (taskId : string)
  : option (nat * StoredTask) :=
  match ts with
  | [] => None
  | t :: rest => if bool_decide (task_id t = taskId) then Some (0%nat, t)
                 else prod_map S id <$> taskById rest taskId
  end.

(** [d.setHours(0, 0, 0, 0)] on the time value [t], in a zone whose
    local time is [localTZA] milliseconds ahead of UTC: the start of the
    local day of [t]. *)
Definition setMidnight (localTZA t : Z) : Z :=
  t - (t + localTZA) `mod` Forum.msPerDay.

Inductive CompleteResponse :=
| calendarNotFound
    (* 404 { error: 'Calendar not found' } *)
| taskNotFound
    (* 404 { error: 'Task not found' } *)
| notYet (daysUntilAvailable : Z)
    (* 400 { error: 'Task cannot be completed yet', message, daysUntilAvailable } *)
| markedCompleted (task : StoredTask).
    (* { success: true, message: 'Task marked as completed', task } *)

(** [PUT /task/:calendarId/:taskId/complete]; [now] and [now'] are the
    two readings of the clock, for [today] and for [completedDate]. *)
Definition completeTask (localTZA : Z) (user calendarId taskId : string)
    (newNotes : option (list ascii)) (now now' : Z)
    (calendars : gmap string Calendar)
  : CompleteResponse * gmap string Calendar :=
  match findOne calendars calendarId user with
  | None => (calendarNotFound, calendars)
  | Some calendar =>
      match taskById (tasks calendar) taskId with
      | None => (taskNotFound, calendars)
      | Some (i, task) =>
          let today := setMidnight localTZA now in
          let scheduled := setMidnight localTZA (scheduledDate task) in
          let daysDifference := Forum.ceilDiv (scheduled - today) (1000 * 60 * 60 * 24) in
          if 1 <? daysDifference then (notYet (daysDifference - 1), calendars)
          else
            let task :=
              mkStoredTask (task_id task) (scheduledDate task) true (Some now')
                (match newNotes with
                 | Some text => if truthy (VString text) then Some text
                                else notes task
                 | None => notes task
                 end) in
            let calendar :=
              mkCalendar (_id calendar) (userId calendar) (active calendar)
                         (<[i := task]> (tasks calendar)) in
            (markedCompleted task, <[_id calendar := calendar]> calendars)
      end
  end.

Inductive DeleteResponse :=
| notFound
    (* 404 { error: 'Calendar not found' } *)
| deactivated.
    (* { success: true, message: 'Calendar deactivated' } *)

(** [DELETE /:calendarId] *)
Definition deactivate (user calendarId : string) (calendars : gmap string Calendar)
  : DeleteResponse * gmap string Calendar :=
  match findOne calendars calendarId user with
  | None => (notFound, calendars)
  | Some calendar =>
      let calendar :=
        mkCalendar (_id calendar) (userId calendar) false (tasks calendar) in
      (deactivated, <[_id calendar := calendar]> calendars)
  end.

End Completion.

(** ** Vocabulary of the statements *)

(** [t] occurs in [s]. *)
Definition infix (t s : list ascii) : Prop := ∃ p q, s = p ++ t ++ q.

(** [head s] is not white space, when there is one. *)
Definition solidHead (s : list ascii) : Prop :=
  match s with [] => True | c :: _ => Js.isSpace c = false end.

(** The zero-valued moderation state of a new account. *)
Definition zeroValued (u : Forum.User) : Prop :=
  Forum.warningCount u = 0%Z ∧ Forum.warningHistory u = [] ∧
  Forum.isBlockedFromForum u = false ∧ Forum.forumBlockedUntil u = None.

(** The states that ledger calls produce from a zero-valued one, whatever
    the submitted texts and the world of each call. *)
Inductive reachable : Forum.User → Prop :=
| reachable_zero (u : Forum.User) : zeroValued u → reachable u
| reachable_call (u : Forum.User) (content title : list ascii) (w : Forum.World) :
    reachable u →
    reachable (Forum.handleContentModeration u content title w).1.2.

(** The entry that a flagged call appends to the history. *)
Definition violationEntry (content title : list ascii) (w : Forum.World)
  : Forum.WarningEntry :=
  {| Forum.date := Forum.clock w (Forum.ticks w);
     Forum.reason :=
       Forum.violationReason
         (Scanner.detectedWords (Scanner.moderateContent content title));
     Forum.content := Scanner.fullText content title |}.

(** A zone of constant offset zero: a process that runs on UTC. *)
Definition utcZone : Forum.Zone := λ _ _, 0%Z.

(** The zone America/New_York around its change to daylight-saving time
    of 10 March 2024, at 07:00 UTC, when local clocks went from 02:00 to
    03:00: five hours behind UTC before it, four hours after. *)
Definition newYork : Forum.Zone :=
  λ t isUTC,
    if isUTC
    then (if 1710054000000 <=? t then -14400000 else -18000000)%Z
    else (if 1710039600000 <=? t then -14400000 else -18000000)%Z.

(** Sample data: a new account, a running clock, an empty collection. *)
Definition sampleUser : Forum.User := Forum.mkUser "u1" None None false None.
Definition sampleWorld : Forum.World :=
  Forum.mkWorld utcZone (λ n, 1000 + Z.of_nat n)%Z 0 ∅.

(** A clock that starts at noon UTC of 8 March 2024, in the zone
    America/New_York (07:00 local time). *)
Definition newYorkWorld : Forum.World :=
  Forum.mkWorld newYork (λ n, Z.of_nat n + 1709899200000)%Z 0 ∅.

(** The new account after one, two and three flagged calls. *)
Definition onceWarned : Forum.User :=
  (Forum.handleContentModeration sampleUser (Js.chars "damn it") [] sampleWorld).1.2.
Definition twiceWarned : Forum.User :=
  (Forum.handleContentModeration onceWarned (Js.chars "Go to HELL") (Js.chars "Re")
                                 newYorkWorld).1.2.
Definition thriceWarned : Forum.User :=
  (Forum.handleContentModeration twiceWarned (Js.chars "buy now!") [] sampleWorld).1.2.

(** The collection that holds the account after its second flagged
    call, at a time after the block date; the document as the gate then
    hands it on, with the date cleared; and the account after a third
    flagged call on that document. *)
Definition laterWorld : Forum.World :=
  Forum.mkWorld newYork (λ n, Z.of_nat n + 1720000000000)%Z 0
                {[ "u1" := twiceWarned ]}.
Definition releasedUser : Forum.User := Forum.setBlockedUntil None twiceWarned.
Definition lockedUser : Forum.User :=
  (Forum.handleContentModeration releasedUser (Js.chars "buy now!") []
     (Forum.checkForumAccess "u1" laterWorld).2).1.2.

(** A user whose temporary block ended one millisecond before the next
    clock reading, as the collection holds it. *)
Definition expiredUser : Forum.User :=
  Forum.mkUser "u1" (Some 2%Z) (Some []) false (Some 999%Z).
Definition expiredWorld : Forum.World :=
  Forum.mkWorld utcZone (λ n, 1000 + Z.of_nat n)%Z 0 {[ "u1" := expiredUser ]}.

(** A user under a temporary block that ends a week after the first
    clock reading, as the collection holds it. *)
Definition pendingUser : Forum.User :=
  Forum.mkUser "u1" (Some 2%Z) (Some []) false (Some 604801000%Z).
Definition pendingWorld : Forum.World :=
  Forum.mkWorld utcZone (λ n, 1000 + Z.of_nat n)%Z 0 {[ "u1" := pendingUser ]}.


(** A collection that holds the new account of [sampleUser]. *)
Definition storedWorld : Forum.World :=
  Forum.mkWorld utcZone (λ n, 1000 + Z.of_nat n)%Z 0 {[ "u1" := sampleUser ]}.

(** A post with two voters and one reply, and its collection. *)
Definition samplePost : Votes.ForumPost :=
  Votes.mkForumPost "p1" ["u1"; "u2"] [Votes.mkReply "r1" ["u2"]].
Definition samplePosts : gmap string Votes.ForumPost := {[ "p1" := samplePost ]}.

(** A post with a reply among whose voters one user occurs twice. *)
Definition doubledPost : Votes.ForumPost :=
  Votes.mkForumPost "p2" [] [Votes.mkReply "r1" ["u1"; "u2"; "u1"]].
Definition doubledPosts : gmap string Votes.ForumPost := {[ "p2" := doubledPost ]}.

(** What the schedule bounds need of a template: a first task that does
    not recur, offsets between three days before sowing and the
    duration, positive recurrence steps, a duration of at most a year. *)
Definition boundedTemplate (template : CropCalendar.CropTemplate) : bool :=
  match CropCalendar.tasks template with
  | [] => false
  | first :: _ => bool_decide (CropCalendar.recurring first = None)
  end
  && forallb
       (λ t, (-3 <=? CropCalendar.offsetDays t)%Z
             && (CropCalendar.offsetDays t <=? CropCalendar.durationDays template)%Z
             && match CropCalendar.recurring t with
                | Some every => (0 <? every)%Z
                | None => true
                end)
       (CropCalendar.tasks template)
  && (0 <=? CropCalendar.durationDays template)%Z
  && (CropCalendar.durationDays template <=? 365)%Z.

(** A sowing date in May 2024 (time value and month index). *)
Definition sowingInMay : CropCalendar.JsDate :=
  CropCalendar.mkJsDate (Some 1715731200000%Z) (Some 4%Z).

(** [taskTemplate.recurring] is falsy. *)
Definition once (t : CropCalendar.TaskTemplate) : bool :=
  match CropCalendar.recurring t with
  | Some every => (every =? 0)%Z
  | None => true
  end.

(** What [new Date] builds from a text that is no date. *)
Definition invalidDate : CropCalendar.JsDate := CropCalendar.mkJsDate None None.

(** The local calendar day of a time value, counted from the epoch. *)
Definition localDay (localTZA t : Z) : Z := ((t + localTZA) `div` 86400000)%Z.

(** A calendar of user "u1" with two tasks, and its collection. *)
Definition sampleCalendar : Completion.Calendar :=
  Completion.mkCalendar "c1" "u1" true
    [ Completion.mkStoredTask "t1" 1715731200000 false None None;
      Completion.mkStoredTask "t2" 1716595200000 false None None ].
Definition sampleCalendars : gmap string Completion.Calendar :=
  {[ "c1" := sampleCalendar ]}.

(** The post collection after the upvote requests of the users
    [requests], in order, on one post. *)
Definition upvoteAll (postId : string) (requests : list string)
    (posts : gmap string Votes.ForumPost) : gmap string Votes.ForumPost :=
  fold_left (λ posts userId, (Votes.upvotePost postId userId posts).2)
            requests posts.

(** How many of the requests come from [userId]. *)
Definition requestsBy (userId : string) (requests : list string) : nat :=
  length (filter (λ r, r = userId) requests).

(** The system clock does not run backwards. *)
Definition monotoneClock (w : Forum.World) : Prop :=
  ∀ n, (Forum.clock w n ≤ Forum.clock w (S n))%Z.

(** The warnings left before the block that the warning message
    announces ("After 3 warnings, you will be permanently blocked"). *)
Definition warningsRemaining (count : Z) : Z := 3 - count.

(** A character of a normalised text: a lower-case letter, a digit, an
    underscore or the space. *)
Definition normalChar (c : ascii) : bool :=
  Js.inRange 97 122 c || Js.inRange 48 57 c || (Js.code c =? 95)%N
  || bool_decide (c = Js.space).

(** White space occurs in [s] only as the space character and never
    twice in a row; [afterSpace] tells that white space precedes [s]. *)
Fixpoint spacedOnce (afterSpace : bool) (s : list ascii) : bool :=
  match s with
  | [] => true
  | c :: r =>
      if Js.isSpace c
      then negb afterSpace && bool_decide (c = Js.space) && spacedOnce true r
      else spacedOnce false r
  end.

(** [/[A-Za-z]/] *)
Definition isLetter (c : ascii) : bool :=
  Js.inRange 65 90 c || Js.inRange 97 122 c.

(** The states of a user document over its life: zero-valued at first,
    then changed by ledger calls and by passages through the gate, which
    loads the stored document. *)
Inductive lifecycle : Forum.User → Prop :=
| life_zero (u : Forum.User) : zeroValued u → lifecycle u
| life_call (u : Forum.User) (content title : list ascii) (w : Forum.World) :
    lifecycle u →
    lifecycle (Forum.handleContentModeration u content title w).1.2
| life_gate (u u' : Forum.User) (w w' : Forum.World) :
    lifecycle u →
    Forum.users w !! Forum._id u = Some u →
    Forum.checkForumAccess (Forum._id u) w = (Forum.next u', w') →
    lifecycle u'.

(** Every stored document sits under its own [_id]. *)
Definition wellKeyed (w : Forum.World) : Prop :=
  ∀ id u, Forum.users w !! id = Some u → Forum._id u = id.




(** ** Properties of the string operations *)

Section StringFacts.
Import Js.

Lemma startsWith_spec (s t : list ascii) :
  startsWith s t = true ↔ ∃ q, s = t ++ q.
Proof.
  revert s. induction t as [|a t IH]; intros s; simpl.
  - split; [eauto | done].
  - destruct s as [|b s].
    + split; [done | intros [q Hq]; discriminate].
    + rewrite andb_true_iff, bool_decide_eq_true, IH. split.
      * intros [-> [q ->]]. by exists q.
      * intros [q Hq]. injection Hq as -> ->. eauto.
Qed.

Lemma includes_spec (s t : list ascii) : includes s t = true ↔ infix t s.
Proof.
  induction s as [|b s IH]; simpl.
  - rewrite orb_false_r, startsWith_spec. split.
    + intros [q Hq]. by exists [], q.
    + intros (p & q & Hpq). destruct p; [by exists q | discriminate].
  - rewrite orb_true_iff, startsWith_spec, IH. split.
    + intros [[q Hq] | (p & q & Hpq)].
      * by exists [], q.
      * exists (b :: p), q. by rewrite Hpq.
    + intros (p & q & Hpq). destruct p as [|c p].
      * left. by exists q.
      * right. injection Hpq as _ ->. by exists p, q.
Qed.

Lemma includes_nil (s : list ascii) : includes s [] = true.
Proof. apply includes_spec. by exists [], s. Qed.

Lemma dropSpaces_solid (s : list ascii) : solidHead (dropSpaces s).
Proof.
  induction s as [|c s IH]; simpl; [done|].
  destruct (isSpace c) eqn:Hc; [done | by simpl].
Qed.

Lemma dropSpaces_suffix (s : list ascii) : ∃ l, s = l ++ dropSpaces s.
Proof.
  induction s as [|c s [l IH]]; simpl; [by exists []|].
  destruct (isSpace c).
  - exists (c :: l). simpl. by rewrite <- IH.
  - by exists [].
Qed.

(** Dropping leading white space stops at the latest before a block that
    starts with another character. *)
Lemma dropSpaces_keep (x k y : list ascii) :
  k ≠ [] → solidHead k → ∃ x', dropSpaces (x ++ k ++ y) = x' ++ k ++ y.
Proof.
  intros Hne Hk. induction x as [|c x [x' IH]]; simpl.
  - exists []. destruct k as [|a k]; [done|]. simpl in *. by rewrite Hk.
  - destruct (isSpace c); [by exists x' | by exists (c :: x)].
Qed.

Lemma trim_solid (s : list ascii) : solidHead (trim s) ∧ solidHead (rev (trim s)).
Proof.
  unfold trim. rewrite rev_involutive. split; [|apply dropSpaces_solid].
  pose proof (dropSpaces_solid s) as Hd.
  destruct (dropSpaces s) as [|c d]; [done|]. simpl in *.
  destruct (dropSpaces_keep (rev d) [c] []) as [x' Hx]; [done..|].
  simpl in Hx. rewrite Hx, rev_app_distr. by simpl.
Qed.

Lemma trim_inside (s : list ascii) : ∃ l r, s = l ++ trim s ++ r.
Proof.
  unfold trim. destruct (dropSpaces_suffix s) as [l Hl].
  destruct (dropSpaces_suffix (rev (dropSpaces s))) as [r Hr].
  exists l, (rev r). rewrite <- rev_app_distr, <- Hr, rev_involutive. done.
Qed.

(** A block with solid ends survives the trimming of what surrounds it. *)
Lemma trim_keep (x k y : list ascii) :
  k ≠ [] → solidHead k → solidHead (rev k) →
  ∃ x' y', trim (x ++ k ++ y) = x' ++ k ++ y'.
Proof.
  intros Hne Hk Hrk. unfold trim.
  destruct (dropSpaces_keep x k y Hne Hk) as [x' ->].
  rewrite !rev_app_distr, <- app_assoc.
  destruct (dropSpaces_keep (rev y) (rev k) (rev x')) as [y' ->]; [|done|].
  { intros Hr. apply Hne. by rewrite <- (rev_involutive k), Hr. }
  exists x', (rev y'). by rewrite !rev_app_distr, !rev_involutive, <- app_assoc.
Qed.

Lemma collapseFrom_app (f : bool) (x y : list ascii) :
  ∃ f', collapseFrom f (x ++ y) = collapseFrom f x ++ collapseFrom f' y.
Proof.
  revert f. induction x as [|c x IH]; intros f; simpl; [by exists f|].
  destruct (isSpace c).
  - destruct (IH true) as [f' ->]. exists f'. by destruct f.
  - destruct (IH false) as [f' ->]. by exists f'.
Qed.

Lemma trim_collapseFrom (f : bool) (s : list ascii) :
  trim (collapseFrom f s) = trim (collapseSpaces s).
Proof.
  destruct f; [|done]. unfold collapseSpaces, trim.
  destruct s as [|c s]; simpl; [done|]. by destruct (isSpace c).
Qed.

(** Normalising a text keeps, as a substring, the normal form of each of
    its substrings. *)
Lemma trim_collapse_infix (p m q : list ascii) :
  infix (trim (collapseSpaces m)) (trim (collapseSpaces (p ++ m ++ q))).
Proof.
  unfold collapseSpaces at 2.
  destruct (collapseFrom_app false p (m ++ q)) as [f1 ->].
  destruct (collapseFrom_app f1 m q) as [f2 ->].
  destruct (trim_inside (collapseFrom f1 m)) as (l & r & Hm).
  rewrite trim_collapseFrom in Hm. rewrite Hm.
  set (k := trim (collapseSpaces m)).
  destruct (decide (k = [])) as [-> | Hne].
  { by eexists [], _. }
  destruct (trim_solid (collapseSpaces m)) as [Hk Hrk].
  destruct (trim_keep (collapseFrom false p ++ l) k (r ++ collapseFrom f2 q))
    as (x' & y' & Hxy); [done..|].
  exists x', y'. rewrite <- Hxy. f_equal. by rewrite <- !app_assoc.
Qed.

Lemma lowerChar_idemp (c : ascii) : lowerChar (lowerChar c) = lowerChar c.
Proof. by destruct c as [[] [] [] [] [] [] [] []]. Qed.

Lemma toLowerCase_idemp (s : list ascii) : toLowerCase (toLowerCase s) = toLowerCase s.
Proof.
  unfold toLowerCase. rewrite map_map. apply map_ext. apply lowerChar_idemp.
Qed.

Lemma dedupe_elem (x : list ascii) (l : list (list ascii)) : x ∈ dedupe l ↔ x ∈ l.
Proof.
  unfold dedupe.
  assert (∀ acc, x ∈ fold_left
            (λ acc x, if bool_decide (x ∈ acc) then acc else acc ++ [x]) l acc
          ↔ x ∈ acc ∨ x ∈ l) as H.
  { induction l as [|y l IH]; intros acc; simpl.
    - rewrite elem_of_nil. tauto.
    - rewrite IH, elem_of_cons. case_bool_decide as Hy.
      + split; [tauto|]. intros [?|[->|?]]; tauto.
      + rewrite elem_of_app, list_elem_of_singleton. tauto. }
  rewrite H, elem_of_nil. tauto.
Qed.

End StringFacts.

(** ** Properties of the scanner *)

Section ScannerFacts.
Import Js Scanner.

Lemma normalizeText_infix (pre v post : list ascii) :
  includes (normalizeText (pre ++ v ++ post)) (normalizeText v) = true.
Proof.
  apply includes_spec. unfold normalizeText, replaceSpecial, toLowerCase.
  rewrite !map_app. apply trim_collapse_infix.
Qed.

Lemma normalizeText_lower (v : list ascii) :
  normalizeText (toLowerCase v) = normalizeText v.
Proof. unfold normalizeText. by rewrite toLowerCase_idemp. Qed.

Lemma matchedWords_elem (n word : list ascii) :
  word ∈ matchedWords n ↔
  includes n (normalizeText word) = true ∧ word ∈ abusiveWords.
Proof. unfold matchedWords. by rewrite list_elem_of_filter. Qed.

Lemma nil_not_listed : [] ∉ abusiveWords.
Proof. apply (bool_decide_unpack _). by vm_compute. Qed.

Lemma spam_pattern_not_listed : spam_pattern ∉ abusiveWords.
Proof. apply (bool_decide_unpack _). by vm_compute. Qed.

(** A listed word whose normal form occurs in the normal form of a
    non-empty text is reported, and the text is flagged. *)
Lemma scan_reports (s word : list ascii) :
  s ≠ [] → word ∈ abusiveWords →
  includes (normalizeText s) (normalizeText word) = true →
  isAbusive (containsAbusiveLanguage (VString s)) = true ∧
  word ∈ detectedWords (containsAbusiveLanguage (VString s)).
Proof.
  intros Hs Hw Hin. unfold containsAbusiveLanguage, truthy.
  rewrite bool_decide_eq_false_2 by done. simpl.
  assert (word ∈ matchedWords (normalizeText s)) as Hm
    by by apply matchedWords_elem.
  split.
  - apply Nat.ltb_lt. rewrite length_app.
    destruct (matchedWords (normalizeText s)); [by apply elem_of_nil in Hm|].
    simpl. lia.
  - apply dedupe_elem, elem_of_app. by left.
Qed.

Lemma scan_infix (pre v post word : list ascii) :
  word ∈ abusiveWords → v ≠ [] → normalizeText v = normalizeText word →
  isAbusive (containsAbusiveLanguage (VString (pre ++ v ++ post))) = true ∧
  word ∈ detectedWords (containsAbusiveLanguage (VString (pre ++ v ++ post))).
Proof.
  intros Hw Hv Hn. apply scan_reports; [|done|].
  - intros H. apply app_eq_nil in H as [_ H]. by apply app_eq_nil in H as [H _].
  - rewrite <- Hn. apply normalizeText_infix.
Qed.

Lemma repeatedChars_spec (s : list ascii) :
  repeatedChars s = true ↔ ∃ c, isDot c = true ∧ infix [c; c; c; c; c] s.
Proof.
  induction s as [|a s IH]; cbn [repeatedChars].
  - split; [done|]. intros (c & _ & p & q & H). by destruct p.
  - rewrite orb_true_iff, andb_true_iff, startsWith_spec, IH. split.
    + intros [[Ha [q ->]] | (c & Hc & p & q & ->)].
      * exists a. split; [done|]. by exists [], q.
      * exists c. split; [done|]. by exists (a :: p), q.
    + intros (c & Hc & p & q & H). destruct p as [|b p].
      * injection H as -> ->. left. split; [done|]. by exists q.
      * injection H as -> ->. right. exists c. split; [done|]. by exists p, q.
Qed.

Lemma excessiveCaps_spec (s : list ascii) :
  excessiveCaps s = true ↔
  (length s < 2 * length (filter (λ c, isUpperAZ c = true) s))%nat ∧
  (10 < length s)%nat.
Proof.
  unfold excessiveCaps. by rewrite andb_true_iff, !Nat.ltb_lt.
Qed.

(** The scanner reports [spam_pattern] exactly on excessive capitals or
    on five copies in a row of a character that [.] matches. *)
Lemma spam_pattern_iff (s : list ascii) :
  spam_pattern ∈ detectedWords (containsAbusiveLanguage (VString s)) ↔
  ((length s < 2 * length (filter (λ c, isUpperAZ c = true) s))%nat ∧
   (10 < length s)%nat) ∨
  (∃ c, isDot c = true ∧ infix [c; c; c; c; c] s).
Proof.
  rewrite <- excessiveCaps_spec, <- repeatedChars_spec, <- orb_true_iff.
  unfold containsAbusiveLanguage, truthy. case_bool_decide as Hs; simpl.
  - subst s. rewrite elem_of_nil. by vm_compute.
  - rewrite dedupe_elem, elem_of_app, matchedWords_elem.
    destruct (excessiveCaps s || repeatedChars s).
    + rewrite list_elem_of_singleton. tauto.
    + rewrite elem_of_nil. pose proof spam_pattern_not_listed. split; [tauto|done].
Qed.

End ScannerFacts.

(** ** The scanner: listed terms, spam patterns, invalid input *)

Section ScannerClaims.
Import Js Scanner.

(** C4.  A text that contains a listed term, written in any casing
    ([v] lower-cases to the term), is flagged and the term is among the
    detected words.  Nothing is asked of the text around the term, so the
    statement covers a term set off from its surroundings by punctuation. *)
Theorem listed_term_is_flagged (word pre v post : list ascii) :
  word ∈ abusiveWords →
  toLowerCase v = word →
  isAbusive (containsAbusiveLanguage (VString (pre ++ v ++ post))) = true ∧
  word ∈ detectedWords (containsAbusiveLanguage (VString (pre ++ v ++ post))).
Proof.
  intros Hw Hv. apply scan_infix; [done| |].
  - intros ->. simpl in Hv. subst word. by apply nil_not_listed.
  - by rewrite <- Hv, normalizeText_lower.
Qed.

Lemma listed_term_is_flagged_witness :
  isAbusive (containsAbusiveLanguage (VString (chars "Oh, DAMN! Really?"))) = true ∧
  chars "damn" ∈ detectedWords (containsAbusiveLanguage (VString (chars "Oh, DAMN! Really?"))).
Proof.
  apply (listed_term_is_flagged (chars "damn") (chars "Oh, ") (chars "DAMN")
           (chars "! Really?")).
  - apply (bool_decide_unpack _). vm_compute. exact I.
  - reflexivity.
Defined.

(** The examples of the specification for [spam_pattern]. *)
Example spam_all_caps :
  spam_pattern ∈ detectedWords (containsAbusiveLanguage (VString (chars "AAAAAAAAAAAA"))).
Proof. apply (bool_decide_unpack _). by vm_compute. Qed.

Example spam_five_repeats :
  spam_pattern ∈ detectedWords (containsAbusiveLanguage (VString (chars "aaaaa"))).
Proof. apply (bool_decide_unpack _). by vm_compute. Qed.

Example no_spam_hello_world :
  spam_pattern ∉ detectedWords (containsAbusiveLanguage (VString (chars "hello world"))).
Proof. apply (bool_decide_unpack _). by vm_compute. Qed.

Example no_spam_four_repeats :
  spam_pattern ∉ detectedWords (containsAbusiveLanguage (VString (chars "aaaa"))).
Proof. apply (bool_decide_unpack _). by vm_compute. Qed.

(** C7.  On a text of five line feeds one character occurs five times in
    a row and yet the scanner does not report [spam_pattern] (nor flags
    the text): the [.] of [/(.)\1{4,}/] matches no line terminator. *)
Theorem five_line_feeds_not_reported :
  let text := replicate 5 "010"%char in
  infix (replicate 5 "010"%char) text ∧
  excessiveCaps text = false ∧
  (spam_pattern ∉ detectedWords (containsAbusiveLanguage (VString text))) ∧
  isAbusive (containsAbusiveLanguage (VString text)) = false.
Proof.
  simpl. split; [by exists [], []|]. split; [done|]. split; [|done].
  apply (bool_decide_unpack _). by vm_compute.
Qed.

(** C8.  On [undefined], [null], the empty string and any value that is
    not a string the scanner returns the non-flagged result with no
    detected word. *)
Theorem invalid_input_not_flagged (v : Value) :
  v = VUndefined ∨ v = VNull ∨ v = VString [] ∨ isString v = false →
  containsAbusiveLanguage v =
    {| isAbusive := false; detectedWords := []; severity := None |}.
Proof.
  intros [-> | [-> | [-> | Hv]]]; try done. by destruct v.
Qed.

Lemma invalid_input_not_flagged_witness :
  containsAbusiveLanguage (VNumber 5) =
    {| isAbusive := false; detectedWords := []; severity := None |}.
Proof.
  apply (invalid_input_not_flagged (VNumber 5)).
  right. right. right. reflexivity.
Defined.

(** C10.  The censored entries normalise to single letters, so a text
    with a letter f, s, b or a (in either case) anywhere is flagged with
    the censored entries of that letter; and a text that contains
    "hello" or "shell" is flagged with the entry "hell". *)
Theorem censored_entries_match_letters :
  map normalizeText (map chars ["f***"; "s***"; "b****"; "a**"; "a***"]%string)
    = map chars ["f"; "s"; "b"; "a"; "a"]%string ∧
  (∀ (text : list ascii) (c : ascii) (entry : list ascii),
     c ∈ text →
     (lowerChar c, entry) ∈
       [ ("f"%char, chars "f***"); ("s"%char, chars "s***");
         ("b"%char, chars "b****"); ("a"%char, chars "a**");
         ("a"%char, chars "a***") ] →
     isAbusive (containsAbusiveLanguage (VString text)) = true ∧
     entry ∈ detectedWords (containsAbusiveLanguage (VString text))) ∧
  (∀ (pre post innocuous : list ascii),
     innocuous ∈ [chars "hello"; chars "shell"] →
     isAbusive (containsAbusiveLanguage (VString (pre ++ innocuous ++ post))) = true ∧
     chars "hell" ∈
       detectedWords (containsAbusiveLanguage (VString (pre ++ innocuous ++ post)))).
Proof.
  split; [done|]. split.
  - intros text c entry Hc He.
    apply list_elem_of_split in Hc as (p & q & ->).
    change (p ++ c :: q) with (p ++ [c] ++ q).
    assert (entry ∈ abusiveWords ∧ normalizeText [c] = normalizeText entry)
      as [Hw Hn].
    { unfold normalizeText at 1, toLowerCase. simpl map.
      repeat (apply elem_of_cons in He as [He | He];
              [injection He as -> ->;
               split; [apply (bool_decide_unpack _); by vm_compute | done]|]).
      by apply elem_of_nil in He. }
    by apply scan_infix.
  - intros pre post w Hw.
    assert (∃ a b, w = a ++ chars "hell" ++ b) as (a & b & ->).
    { apply elem_of_cons in Hw as [-> | Hw]; [by exists [], (chars "o")|].
      apply list_elem_of_singleton in Hw as ->. by exists (chars "s"), []. }
    rewrite <- !app_assoc, (app_assoc pre a).
    apply scan_infix; [|done..].
    apply (bool_decide_unpack _). by vm_compute.
Qed.

Lemma censored_entries_match_letters_witness :
  (isAbusive (containsAbusiveLanguage (VString (chars "Fig tree"))) = true ∧
   chars "f***" ∈ detectedWords (containsAbusiveLanguage (VString (chars "Fig tree")))) ∧
  (isAbusive (containsAbusiveLanguage (VString (chars "Oh, hello!"))) = true ∧
   chars "hell" ∈ detectedWords (containsAbusiveLanguage (VString (chars "Oh, hello!")))).
Proof.
  destruct censored_entries_match_letters as (_ & Hletter & Hinside). split.
  - apply (Hletter (chars "Fig tree") "F"%char (chars "f***")).
    + apply (bool_decide_unpack _). vm_compute. exact I.
    + apply (bool_decide_unpack _). vm_compute. exact I.
  - apply (Hinside (chars "Oh, ") (chars "!") (chars "hello")).
    apply (bool_decide_unpack _). vm_compute. exact I.
Defined.

End ScannerClaims.

(** ** Properties of the ledger and of the gate *)

Section ForumFacts.
Import Js Scanner Forum.
Local Open Scope Z_scope.

Lemma ceilDiv_spec (a b : Z) :
  0 < b → b * (ceilDiv a b - 1) < a ≤ b * ceilDiv a b.
Proof.
  intros Hb. unfold ceilDiv.
  pose proof (Z.div_mod (- a) b) as Hdm.
  pose proof (Z.mod_pos_bound (- a) b Hb). nia.
Qed.

Lemma ledger_clean (u : User) (content title : list ascii) (w : World) :
  isAbusive (moderateContent content title) = false →
  handleContentModeration u content title w = (noAction, u, w).
Proof. intros H. unfold handleContentModeration. by rewrite H. Qed.

Lemma ledger_flagged (u : User) (content title : list ascii) (w : World) :
  isAbusive (moderateContent content title) = true →
  let n := warningCount u + 1 in
  let u1 := setHistory (warningHistory u ++ [violationEntry content title w])
                       (setWarnings n u) in
  let blockUntil := addDays (localTZA w) (clock w (S (ticks w))) 7 in
  handleContentModeration u content title w =
    if 3 <=? n then
      (permanentBlock n permanentMessage, setBlocked true u1,
       mkWorld (localTZA w) (clock w) (S (ticks w)) (<[_id u := setBlocked true u1]> (users w)))
    else if n =? 2 then
      (temporaryBlock n temporaryMessage blockUntil,
       setBlockedUntil (Some blockUntil) u1,
       mkWorld (localTZA w) (clock w) (S (S (ticks w)))
               (<[_id u := setBlockedUntil (Some blockUntil) u1]> (users w)))
    else
      (warning n (warningMessage n) (detectedWords (moderateContent content title)), u1,
       mkWorld (localTZA w) (clock w) (S (ticks w)) (<[_id u := u1]> (users w))).
Proof.
  intros H. unfold handleContentModeration. rewrite H.
  unfold mbind, M_bind, mret, M_ret, newDate, plusDays, save. cbv beta iota zeta.
  change (warningCount (setHistory _ (setWarnings ?n u))) with n.
  destruct (3 <=? warningCount u + 1); [reflexivity|].
  destruct (warningCount u + 1 =? 2); reflexivity.
Qed.

(** What a flagged call does to each field, and what it returns. *)
Lemma ledger_flagged_parts (u : User) (content title : list ascii) (w : World) :
  isAbusive (moderateContent content title) = true →
  let r := handleContentModeration u content title w in
  let n := warningCount u + 1 in
  let blockUntil := addDays (localTZA w) (clock w (S (ticks w))) 7 in
  warningCount r.1.2 = n ∧
  warningHistory r.1.2 = warningHistory u ++ [violationEntry content title w] ∧
  isBlockedFromForum r.1.2 = isBlockedFromForum u || (3 <=? n) ∧
  forumBlockedUntil r.1.2 =
    (if negb (3 <=? n) && (n =? 2) then Some blockUntil else forumBlockedUntil u) ∧
  r.1.1 =
    (if 3 <=? n then permanentBlock n permanentMessage
     else if n =? 2 then temporaryBlock n temporaryMessage blockUntil
     else warning n (warningMessage n) (detectedWords (moderateContent content title))) ∧
  _id r.1.2 = _id u ∧
  users r.2 = <[_id u := r.1.2]> (users w) ∧
  localTZA r.2 = localTZA w.
Proof.
  intros H. cbv zeta. rewrite (ledger_flagged u content title w H). cbv zeta.
  destruct (3 <=? warningCount u + 1).
  - cbn [fst snd]. repeat split; try reflexivity.
    cbn. by rewrite orb_true_r.
  - destruct (warningCount u + 1 =? 2); cbn [fst snd]; repeat split;
      try reflexivity; cbn; by rewrite orb_false_r.
Qed.

Lemma ledger_count (u : User) (content title : list ascii) (w : World) :
  warningCount (handleContentModeration u content title w).1.2 =
    if isAbusive (moderateContent content title)
    then warningCount u + 1 else warningCount u.
Proof.
  destruct (isAbusive (moderateContent content title)) eqn:H.
  - apply (ledger_flagged_parts u content title w H).
  - by rewrite ledger_clean.
Qed.

End ForumFacts.

(** ** The warning ledger *)

Section LedgerClaims.
Import Js Scanner Forum.
Local Open Scope Z_scope.




(** C2.  In every state that ledger calls produce from a zero-valued
    one, [isBlockedFromForum] holds only with a warning count of at least
    3; and a further call either leaves [forumBlockedUntil] as it was or
    is the call that takes the count from 1 to 2, which sets the field to
    the block date: the same local time of day seven calendar days after
    its clock reading. *)
Theorem block_flags_follow_count (u : User) :
  reachable u →
  (isBlockedFromForum u = true → 3 ≤ warningCount u) ∧
  (∀ (content title : list ascii) (w : World),
     let r := handleContentModeration u content title w in
     let now := clock w (S (ticks w)) in
     let localThen := now + localTZA w now true + 7 * 86400000 in
     forumBlockedUntil r.1.2 = forumBlockedUntil u ∨
     (warningCount u = 1 ∧ warningCount r.1.2 = 2 ∧
      forumBlockedUntil r.1.2 = Some (localThen - localTZA w localThen false))).
Proof.
  intros Hr. split.
  - induction Hr as [u (_ & _ & Hb & _) | u content title w Hr IH].
    + by rewrite Hb.
    + destruct (isAbusive (moderateContent content title)) eqn:H.
      * destruct (ledger_flagged_parts u content title w H)
          as (Hn & _ & Hb & _). cbv zeta in Hn, Hb.
        rewrite Hn, Hb. intros [Hu | Hle]%orb_true_iff.
        -- specialize (IH Hu). lia.
        -- apply Z.leb_le in Hle. lia.
      * by rewrite ledger_clean.
  - intros content title w r now localThen. subst r.
    destruct (isAbusive (moderateContent content title)) eqn:H.
    + destruct (ledger_flagged_parts u content title w H)
        as (Hn & _ & _ & Hb & _). cbv zeta in Hn, Hb.
      rewrite Hn, Hb.
      destruct (3 <=? warningCount u + 1); [by left|].
      destruct (warningCount u + 1 =? 2) eqn:H2; [|by left].
      apply Z.eqb_eq in H2. right. split; [lia|]. split; [lia|done].
    + rewrite ledger_clean by done. by left.
Qed.

(** The invariant at the state after three flagged calls, which is
    permanently blocked, and the call that takes the state after one
    flagged call from count 1 to count 2 and sets the block date. *)
Lemma block_flags_follow_count_witness :
  (isBlockedFromForum thriceWarned = true ∧ 3 ≤ warningCount thriceWarned) ∧
  (let r := handleContentModeration onceWarned (chars "Go to HELL") (chars "Re")
                                    newYorkWorld in
   forumBlockedUntil onceWarned = None ∧
   warningCount onceWarned = 1 ∧ warningCount r.1.2 = 2 ∧
   forumBlockedUntil r.1.2 = Some 1710500400001).
Proof.
  split.
  - split; [reflexivity|].
    apply (block_flags_follow_count thriceWarned).
    + apply reachable_call, reachable_call, reachable_call, reachable_zero.
      repeat split; reflexivity.
    + reflexivity.
  - cbv zeta.
    destruct (block_flags_follow_count onceWarned) as [_ H].
    + apply reachable_call, reachable_zero. repeat split; reflexivity.
    + specialize (H (chars "Go to HELL") (chars "Re") newYorkWorld).
      cbv zeta in H. split; [reflexivity|].
      destruct H as [H | (H1 & H2 & H3)].
      * exfalso. vm_compute in H. discriminate H.
      * split; [exact H1|]. split; [exact H2|]. rewrite H3.
        vm_compute. reflexivity.
Defined.

(** C3.  Along any run of ledger calls from any state, with flagged or
    clean texts in any order, the warning counts read before the run and
    after each call never decrease. *)
Theorem warning_count_never_decreases
    (calls : list (list ascii * list ascii)) (u : User) (w : World) :
  StronglySorted Z.le (map warningCount (u :: (ledgerTrace calls u w).1)).
Proof.
  revert u w. induction calls as [|[content title] calls IH]; intros u w.
  - repeat constructor.
  - cbn [ledgerTrace]. unfold mbind, M_bind, mret, M_ret.
    destruct (handleContentModeration u content title w) as [[o u'] w'] eqn:Hc.
    cbv beta iota zeta. cbn [fst snd]. specialize (IH u' w').
    destruct (ledgerTrace calls u' w') as [later w''].
    cbn [fst snd] in *.
    assert (warningCount u ≤ warningCount u') as Hle.
    { pose proof (ledger_count u content title w) as Hn. rewrite Hc in Hn.
      cbn [fst snd] in Hn. rewrite Hn. destruct (isAbusive _); lia. }
    rewrite map_cons. constructor; [exact IH|].
    rewrite map_cons in IH |- *. apply StronglySorted_inv in IH as [_ Hall].
    constructor; [done|].
    eapply Forall_impl; [exact Hall|]. simpl. intros; lia.
Qed.

(** C6.  A ledger call on clean content returns the no-action object and
    leaves the document, the saved collection and the clock untouched. *)
Theorem clean_call_is_no_action (u : User) (content title : list ascii) (w : World) :
  isAbusive (moderateContent content title) = false →
  let r := handleContentModeration u content title w in
  r = (noAction, u, w) ∧
  blocked r.1.1 = false ∧ warned r.1.1 = false ∧
  warningCount r.1.2 = warningCount u ∧
  warningHistory r.1.2 = warningHistory u ∧
  isBlockedFromForum r.1.2 = isBlockedFromForum u ∧
  forumBlockedUntil r.1.2 = forumBlockedUntil u.
Proof.
  intros H r. subst r. by rewrite ledger_clean.
Qed.

Lemma clean_call_is_no_action_witness :
  handleContentModeration sampleUser (chars "Corn yield good") (chars "Crop") sampleWorld
    = (noAction, sampleUser, sampleWorld).
Proof.
  refine (proj1 (clean_call_is_no_action sampleUser (chars "Corn yield good")
                   (chars "Crop") sampleWorld _)).
  vm_compute. reflexivity.
Defined.

End LedgerClaims.

Section MessageClaims.
Import Js Scanner Forum.
Local Open Scope Z_scope.

(** C9, as stated, fails: the message of the first warning does not
    contain the number of warnings that remain (2) before the block it
    announces; its only numbers are the count so far and the limit. *)
Lemma first_warning_lacks_remaining :
  let r := handleContentModeration sampleUser (chars "damn it") [] sampleWorld in
  warningCount sampleUser = 0 ∧
  isAbusive (moderateContent (chars "damn it") []) = true ∧
  warningCount r.1.2 = 1 ∧
  message r.1.1 = Some (chars
    "Warning: Your content contains inappropriate language. You have 1 warning(s). After 3 warnings, you will be permanently blocked.") ∧
  ∀ msg, message r.1.1 = Some msg →
         includes msg (showInt (warningsRemaining (warningCount r.1.2))) = false.
Proof.
  cbv zeta. repeat split; try (vm_compute; reflexivity).
  intros msg Hmsg. vm_compute in Hmsg. injection Hmsg as <-.
  vm_compute. reflexivity.
Qed.

(** C9, amended.  When a flagged call takes the warning count from 0 to
    1 the outcome is the warning, and its message is the fixed text
    around the new warning count, 1, with the limit of 3 warnings. *)
Theorem first_warning_tells_count (u : User) (content title : list ascii) (w : World) :
  warningCount u = 0 →
  isAbusive (moderateContent content title) = true →
  let r := handleContentModeration u content title w in
  warned r.1.1 = true ∧ blocked r.1.1 = false ∧
  warningCount r.1.2 = 1 ∧
  message r.1.1 = Some (
    chars "Warning: Your content contains inappropriate language. You have "
    ++ showInt (warningCount r.1.2)
    ++ chars " warning(s). After 3 warnings, you will be permanently blocked.").
Proof.
  intros Hu H r.
  destruct (ledger_flagged_parts u content title w H) as (Hn & _ & _ & _ & Ho & _).
  fold r in Hn, Ho. rewrite Hu in Hn, Ho. change (0 + 1) with 1 in Hn, Ho.
  change (3 <=? 1) with false in Ho. change (1 =? 2) with false in Ho.
  cbv iota in Ho. rewrite Ho, Hn. done.
Qed.

Lemma first_warning_tells_count_witness :
  let r := handleContentModeration sampleUser (chars "damn it") [] sampleWorld in
  warned r.1.1 = true ∧ blocked r.1.1 = false ∧
  warningCount r.1.2 = 1 ∧
  message r.1.1 = Some (
    chars "Warning: Your content contains inappropriate language. You have "
    ++ showInt (warningCount r.1.2)
    ++ chars " warning(s). After 3 warnings, you will be permanently blocked.").
Proof.
  apply (first_warning_tells_count sampleUser (chars "damn it") [] sampleWorld).
  - reflexivity.
  - vm_compute. reflexivity.
Defined.

End MessageClaims.

(** ** The access gate *)

Section GateClaims.
Import Js Scanner Forum.
Local Open Scope Z_scope.

(** C5.  For a stored user and a clock that does not run backwards:
    a permanently blocked user is denied with the permanent reason;
    otherwise a user whose block date is still ahead of the clock is
    denied with the temporary reason, whose text states the number of
    days remaining, the ceiling of the remaining time (at the reading
    taken for it) over one day; otherwise the request goes on, and when
    a block date was set and has passed (or is the present instant) it
    is cleared and the document saved first, after which a second check
    lets the request go on with the same document and changes nothing in
    the collection. *)
Theorem access_gate (w : World) (id : string) (u : User) :
  users w !! id = Some u →
  _id u = id →
  monotoneClock w →
  let now := clock w (ticks w) in
  (isBlockedFromForum u = true →
     checkForumAccess id w =
       (deniedPermanent
          (chars "You have been blocked from the forum due to repeated violations of community guidelines.")
          (forumWarnings u), w)) ∧
  (∀ blockedUntil : Z,
     isBlockedFromForum u = false → forumBlockedUntil u = Some blockedUntil →
     now < blockedUntil →
     ∃ (days : Z) (w' : World),
       checkForumAccess id w =
         (deniedTemporary
            (chars "You are temporarily blocked from the forum. Access will be restored in "
             ++ showInt days ++ chars " day(s).")
            blockedUntil (forumWarnings u), w') ∧
       users w' = users w ∧
       86400000 * (days - 1) < blockedUntil - clock w (S (ticks w)) ≤ 86400000 * days) ∧
  (isBlockedFromForum u = false → forumBlockedUntil u = None →
     checkForumAccess id w = (next u, w)) ∧
  (∀ blockedUntil : Z,
     isBlockedFromForum u = false → forumBlockedUntil u = Some blockedUntil →
     blockedUntil ≤ now →
     ∃ w' : World,
       checkForumAccess id w = (next (setBlockedUntil None u), w') ∧
       forumBlockedUntil (setBlockedUntil None u) = None ∧
       users w' = <[id := setBlockedUntil None u]> (users w) ∧
       checkForumAccess id w' = (next (setBlockedUntil None u), w')).
Proof.
  intros Hu Hid Hclock now.
  unfold checkForumAccess, mbind, M_bind, mret, M_ret, findById, newDate, save.
  rewrite Hu. cbv beta iota zeta. repeat split.
  - by intros ->.
  - intros t -> -> Hlt. cbn [clock ticks users].
    apply Z.ltb_lt in Hlt. fold now. rewrite Hlt.
    cbv beta iota. cbn [clock ticks users].
    eexists _, _. split; [reflexivity|]. split; [done|].
    apply (ceilDiv_spec _ msPerDay). done.
  - by intros -> ->.
  - intros t Hb Ht Hle. rewrite Hb, Ht. cbn [clock ticks users].
    fold now. rewrite (proj2 (Z.ltb_ge now t)) by done.
    cbv beta iota. cbn [clock ticks users].
    rewrite (proj2 (Z.leb_le t (clock w (S (ticks w)))))
      by (specialize (Hclock (ticks w)); fold now in Hclock; lia).
    eexists. split; [reflexivity|]. split; [done|].
    cbn [users _id setBlockedUntil]. rewrite Hid. split; [done|].
    rewrite lookup_insert_eq. unfold setBlockedUntil.
    cbn [isBlockedFromForum forumBlockedUntil]. by rewrite Hb.
Qed.

(** A user blocked for a week less two milliseconds at the reading taken
    for the message is told 7 days; a user whose block ended one
    millisecond ago passes with the date cleared, twice. *)
Lemma access_gate_witness :
  (∃ w' : World,
     checkForumAccess "u1" pendingWorld =
       (deniedTemporary
          (chars "You are temporarily blocked from the forum. Access will be restored in 7 day(s).")
          604801000 (Some 2), w') ∧
     users w' = users pendingWorld) ∧
  (∃ w' : World,
     checkForumAccess "u1" expiredWorld = (next (setBlockedUntil None expiredUser), w') ∧
     forumBlockedUntil (setBlockedUntil None expiredUser) = None ∧
     users w' = <["u1" := setBlockedUntil None expiredUser]> (users expiredWorld) ∧
     checkForumAccess "u1" w' = (next (setBlockedUntil None expiredUser), w')).
Proof.
  split.
  - destruct (access_gate pendingWorld "u1" pendingUser) as (_ & H & _).
    + vm_compute. reflexivity.
    + reflexivity.
    + intros n. simpl. lia.
    + destruct (H 604801000) as (days & w' & Hg & Hs & Hd).
      * reflexivity.
      * reflexivity.
      * simpl. lia.
      * exists w'. split; [|exact Hs].
        assert (days = 7) as -> by (simpl in Hd; lia). exact Hg.
  - refine (proj2 (proj2 (proj2
      (access_gate expiredWorld "u1" expiredUser _ _ _))) 999 _ _ _).
    + vm_compute. reflexivity.
    + reflexivity.
    + intros n. simpl. lia.
    + reflexivity.
    + reflexivity.
    + simpl. lia.
Defined.

End GateClaims.

(** ** Further properties of the scanner *)

Section NormalForm.
Import Js Scanner.

Lemma normalised_char (c : ascii) :
  let c' := (if isWordChar (lowerChar c) || isSpace (lowerChar c)
             then lowerChar c else space) in
  isSpace c' = true ∨ (isSpace c' = false ∧ normalChar c' = true).
Proof. destruct c as [[] [] [] [] [] [] [] []]; vm_compute; tauto. Qed.

Lemma normalChar_fixed (c : ascii) :
  normalChar c = true →
  lowerChar c = c ∧ isWordChar c || isSpace c = true ∧
  (isSpace c = true → c = space).
Proof.
  destruct c as [[] [] [] [] [] [] [] []]; vm_compute; intros H;
    repeat split; try done.
Qed.

Lemma collapse_normalChars (f : bool) (s : list ascii) :
  Forall (λ c, normalChar c = true)
         (collapseFrom f (replaceSpecial (toLowerCase s))).
Proof.
  revert f. induction s as [|c s IH]; intros f; [constructor|].
  unfold replaceSpecial, toLowerCase in *. rewrite !map_cons.
  cbn [collapseFrom]. destruct (normalised_char c) as [Hs | [Hs Hn]];
    cbv zeta in *; rewrite Hs.
  - destruct f; [apply IH|]. constructor; [done | apply IH].
  - constructor; [done | apply IH].
Qed.

Lemma spacedOnce_collapse (f : bool) (s : list ascii) :
  spacedOnce f (collapseFrom f s) = true.
Proof.
  revert f. induction s as [|c s IH]; intros f; [done|].
  cbn [collapseFrom]. destruct (isSpace c) eqn:Hc.
  - destruct f; [apply IH|]. cbn [spacedOnce].
    change (isSpace space) with true. cbv iota.
    rewrite IH. by rewrite bool_decide_eq_true_2.
  - cbn [spacedOnce]. rewrite Hc. apply IH.
Qed.

Lemma spacedOnce_solid (f : bool) (s : list ascii) :
  solidHead s → spacedOnce f s = spacedOnce false s.
Proof. destruct s as [|c s]; [done|]. simpl. by intros ->. Qed.

Lemma spacedOnce_app (f : bool) (x y : list ascii) :
  spacedOnce f (x ++ y) = true →
  spacedOnce f x = true ∧ ∃ f', spacedOnce f' y = true.
Proof.
  revert f. induction x as [|c x IH]; intros f; simpl.
  - intros H. split; [done|]. by exists f.
  - destruct (isSpace c).
    + intros H. apply andb_true_iff in H as [Hc H].
      destruct (IH _ H) as [Hx Hy]. by rewrite Hc, Hx.
    + apply IH.
Qed.

Lemma spacedOnce_trim (f : bool) (s : list ascii) :
  spacedOnce f s = true → spacedOnce false (trim s) = true.
Proof.
  intros H. destruct (trim_inside s) as (l & r & Hs). rewrite Hs in H.
  apply spacedOnce_app in H as [_ [f' H]].
  apply spacedOnce_app in H as [H _].
  rewrite <- (spacedOnce_solid f'); [done|]. apply trim_solid.
Qed.

Lemma spacedOnce_no_double (f : bool) (s : list ascii) :
  spacedOnce f s = true → ¬ infix [space; space] s.
Proof.
  intros H (p & q & ->). revert f H. induction p as [|c p IH]; intros f.
  - simpl. change (isSpace space) with true. cbv iota.
    rewrite !andb_true_iff. by intros [_ ?].
  - simpl. destruct (isSpace c); [|apply IH].
    intros [_ H]%andb_true_iff. by apply IH in H.
Qed.

Lemma collapse_fixed (f : bool) (s : list ascii) :
  spacedOnce f s = true → collapseFrom f s = s.
Proof.
  revert f. induction s as [|c s IH]; intros f; [done|]. simpl.
  destruct (isSpace c).
  - intros [[Hf ->%bool_decide_eq_true]%andb_true_iff H]%andb_true_iff.
    destruct f; [done|]. by rewrite IH.
  - intros H. by rewrite IH.
Qed.

Lemma dropSpaces_fixed (s : list ascii) : solidHead s → dropSpaces s = s.
Proof. destruct s as [|c s]; [done|]. simpl. by intros ->. Qed.

Lemma trim_fixed (s : list ascii) :
  solidHead s → solidHead (rev s) → trim s = s.
Proof.
  intros H Hr. unfold trim.
  by rewrite (dropSpaces_fixed s H), (dropSpaces_fixed _ Hr), rev_involutive.
Qed.

Lemma normalizeText_chars (s : list ascii) :
  Forall (λ c, normalChar c = true) (normalizeText s).
Proof.
  unfold normalizeText.
  destruct (trim_inside (collapseSpaces (replaceSpecial (toLowerCase s))))
    as (l & r & H).
  pose proof (collapse_normalChars false s) as Hall.
  fold (collapseSpaces (replaceSpecial (toLowerCase s))) in Hall.
  rewrite H in Hall. apply Forall_app in Hall as [_ Hall].
  by apply Forall_app in Hall as [Hall _].
Qed.

(** X1.  The normal form of a text consists of lower-case letters,
    digits, underscores and single spaces between them: it neither
    starts nor ends with a space and has no two spaces in a row. *)
Theorem normalizeText_shape (s : list ascii) :
  Forall (λ c, normalChar c = true) (normalizeText s) ∧
  head (normalizeText s) ≠ Some space ∧
  last (normalizeText s) ≠ Some space ∧
  ¬ infix [space; space] (normalizeText s).
Proof.
  split; [apply normalizeText_chars|]. unfold normalizeText.
  destruct (trim_solid (collapseSpaces (replaceSpecial (toLowerCase s))))
    as [Hh Hl].
  set (n := trim _) in *. repeat split.
  - destruct n; [done|]. simpl in *. intros [= ->]. done.
  - intros Hlast. rewrite <- (rev_involutive n) in Hlast.
    destruct (rev n) as [|c r]; [done|]. simpl in Hlast, Hl.
    rewrite last_snoc in Hlast. injection Hlast as ->. done.
  - apply (spacedOnce_no_double false). apply (spacedOnce_trim false).
    apply spacedOnce_collapse.
Qed.

(** X2.  Normalising is idempotent: a normal form is its own normal
    form. *)
Theorem normalizeText_idempotent (s : list ascii) :
  normalizeText (normalizeText s) = normalizeText s.
Proof.
  pose proof (normalizeText_chars s) as Hall.
  assert (spacedOnce false (normalizeText s) = true) as Hsp.
  { apply (spacedOnce_trim false), spacedOnce_collapse. }
  assert (solidHead (normalizeText s) ∧ solidHead (rev (normalizeText s)))
    as [Hh Hl] by apply trim_solid.
  set (n := normalizeText s) in *. unfold normalizeText.
  assert (replaceSpecial (toLowerCase n) = n) as ->.
  { unfold replaceSpecial, toLowerCase. rewrite map_map.
    clear Hsp Hh Hl. induction Hall as [|c l Hc _ IH]; [done|].
    rewrite map_cons, IH. f_equal.
    destruct (normalChar_fixed c Hc) as (-> & -> & _). done. }
  unfold collapseSpaces. rewrite collapse_fixed by done. by apply trim_fixed.
Qed.

End NormalForm.

Section Detection.
Import Js Scanner.

Lemma dedupe_NoDup (l : list (list ascii)) : NoDup (dedupe l).
Proof.
  unfold dedupe.
  assert (∀ acc, NoDup acc → NoDup (fold_left
            (λ acc x, if bool_decide (x ∈ acc) then acc else acc ++ [x]) l acc))
    as H; [|apply H; constructor].
  induction l as [|x l IH]; intros acc Hacc; [done|]. simpl. apply IH.
  case_bool_decide as Hx; [done|].
  apply NoDup_app. split; [done|]. split; [|apply NoDup_singleton].
  intros y Hy ->%list_elem_of_singleton. done.
Qed.

Lemma dedupe_fixed (l : list (list ascii)) : NoDup l → dedupe l = l.
Proof.
  unfold dedupe.
  assert (∀ acc, NoDup (acc ++ l) → fold_left
            (λ acc x, if bool_decide (x ∈ acc) then acc else acc ++ [x]) l acc
            = acc ++ l) as H; [|apply (H [])].
  induction l as [|x l IH]; intros acc Hacc; simpl; [by rewrite app_nil_r|].
  rewrite bool_decide_eq_false_2.
  - rewrite IH; rewrite <- app_assoc; done.
  - apply NoDup_app in Hacc as (_ & Hacc & _). intros Hx.
    apply (Hacc x Hx). by left.
Qed.

Lemma listed_NoDup : NoDup abusiveWords.
Proof. apply (bool_decide_unpack _). by vm_compute. Qed.

Lemma listed_normal_forms :
  Forall (λ word, normalizeText word ≠ [] ∧
                  existsb isLetter (normalizeText word) = true) abusiveWords.
Proof. repeat constructor; by vm_compute. Qed.

(** Before [new Set] the detected words are already distinct. *)
Lemma detected_NoDup (s : list ascii) :
  NoDup (matchedWords (normalizeText s) ++
         (if excessiveCaps s || repeatedChars s then [spam_pattern] else [])).
Proof.
  apply NoDup_app. split; [apply NoDup_filter, listed_NoDup|]. split.
  - intros x [_ Hx]%matchedWords_elem.
    destruct (excessiveCaps s || repeatedChars s); [|apply not_elem_of_nil].
    intros ->%list_elem_of_singleton. by apply spam_pattern_not_listed.
  - destruct (excessiveCaps s || repeatedChars s);
      [apply NoDup_singleton | constructor].
Qed.

Lemma detected_elem (s word : list ascii) :
  word ∈ detectedWords (containsAbusiveLanguage (VString s)) ↔
  (word ∈ abusiveWords ∧ infix (normalizeText word) (normalizeText s)) ∨
  (word = spam_pattern ∧
   (((length s < 2 * length (filter (λ c, isUpperAZ c = true) s))%nat ∧
     (10 < length s)%nat) ∨
    (∃ c, isDot c = true ∧ infix [c; c; c; c; c] s))).
Proof.
  rewrite <- excessiveCaps_spec, <- repeatedChars_spec, <- orb_true_iff.
  unfold containsAbusiveLanguage, truthy. case_bool_decide as Hs; simpl.
  - subst s. rewrite elem_of_nil. split; [done|].
    intros [[Hw (p & q & Hn)] | [_ H]]; [|done].
    pose proof listed_normal_forms as Hall.
    rewrite Forall_forall in Hall. destruct (Hall word Hw) as [Hne _].
    change (normalizeText []) with (@nil ascii) in Hn.
    destruct p; [|done]. by destruct (normalizeText word).
  - rewrite dedupe_elem, elem_of_app, matchedWords_elem, includes_spec.
    destruct (excessiveCaps s || repeatedChars s).
    + rewrite list_elem_of_singleton. tauto.
    + rewrite elem_of_nil. split; [tauto|]. intros [?|[_ ?]]; [tauto|done].
Qed.

(** X3.  What the scanner reports for a text, exactly: a listed word
    whose normal form occurs in the normal form of the text, and
    [spam_pattern] on excessive capitals or on five copies in a row of a
    character other than a line terminator. *)
Theorem detected_words_exact (s word : list ascii) :
  word ∈ detectedWords (containsAbusiveLanguage (VString s)) ↔
  (word ∈ abusiveWords ∧ infix (normalizeText word) (normalizeText s)) ∨
  (word = spam_pattern ∧
   (((length s < 2 * length (filter (λ c, isUpperAZ c = true) s))%nat ∧
     (10 < length s)%nat) ∨
    (∃ c, isDot c = true ∧ infix [c; c; c; c; c] s))).
Proof. apply detected_elem. Qed.

(** X4.  For a non-empty text the reported words are distinct, the text
    is flagged exactly when some word is reported, and the severity is
    high for more than two reported words, medium for one or two, low for
    none. *)
Theorem flag_and_severity_count_reports (s : list ascii) :
  s ≠ [] →
  let r := containsAbusiveLanguage (VString s) in
  NoDup (detectedWords r) ∧
  (isAbusive r = true ↔ detectedWords r ≠ []) ∧
  severity r = Some (if (2 <? length (detectedWords r))%nat then high
                     else if (0 <? length (detectedWords r))%nat then medium
                     else low).
Proof.
  intros Hs. unfold containsAbusiveLanguage, truthy.
  rewrite bool_decide_eq_false_2 by done. cbn [negb isAbusive detectedWords severity].
  rewrite (dedupe_fixed _ (detected_NoDup s)).
  split; [apply detected_NoDup|]. split; [|done].
  rewrite Nat.ltb_lt. destruct (_ ++ _); simpl; split; (done || lia).
Qed.

Lemma flag_and_severity_count_reports_witness :
  let r := containsAbusiveLanguage (VString (chars "DAMN this crap, buy now")) in
  NoDup (detectedWords r) ∧
  (isAbusive r = true ↔ detectedWords r ≠ []) ∧
  severity r = Some (if (2 <? length (detectedWords r))%nat then high
                     else if (0 <? length (detectedWords r))%nat then medium
                     else low).
Proof.
  apply (flag_and_severity_count_reports (chars "DAMN this crap, buy now")).
  discriminate.
Defined.

(** X5.  Posts are moderated with their title: a listed term, in any
    casing, that occurs in the title or in the content is reported and
    flags the submission. *)
Theorem title_and_content_are_moderated (word v content title : list ascii) :
  word ∈ abusiveWords →
  toLowerCase v = word →
  infix v title ∨ infix v content →
  isAbusive (moderateContent content title) = true ∧
  word ∈ detectedWords (moderateContent content title).
Proof.
  intros Hw Hv Hin.
  assert (v ≠ []) as Hne.
  { intros ->. simpl in Hv. subst word. by apply nil_not_listed. }
  assert (∃ p q, fullText content title = p ++ v ++ q) as (p & q & Hf).
  { unfold fullText, truthy. case_bool_decide as Ht; simpl.
    - subst title. destruct Hin as [(p & q & H) | Hc]; [|done].
      destruct p; [|done]. by destruct v.
    - destruct Hin as [(p & q & ->) | (p & q & ->)].
      + exists p, (q ++ space :: content). by rewrite <- !app_assoc.
      + exists (title ++ space :: p), q. by rewrite <- !app_assoc. }
  unfold moderateContent. rewrite Hf. apply scan_infix; [done..|].
  by rewrite <- Hv, normalizeText_lower.
Qed.

Lemma title_and_content_are_moderated_witness :
  isAbusive (moderateContent (chars "How to sow wheat?") (chars "Click HERE")) = true ∧
  chars "click here" ∈
    detectedWords (moderateContent (chars "How to sow wheat?") (chars "Click HERE")).
Proof.
  apply (title_and_content_are_moderated (chars "click here") (chars "Click HERE")).
  - apply (bool_decide_unpack _). vm_compute. exact I.
  - reflexivity.
  - left. exists [], []. reflexivity.
Defined.

Lemma letterless_char (c : ascii) :
  isLetter c = false →
  isLetter (if isWordChar (lowerChar c) || isSpace (lowerChar c)
            then lowerChar c else space) = false.
Proof. destruct c as [[] [] [] [] [] [] [] []]; vm_compute; done. Qed.

Lemma collapse_letterless (f : bool) (s : list ascii) :
  Forall (λ c, isLetter c = false) s →
  Forall (λ c, isLetter c = false)
         (collapseFrom f (replaceSpecial (toLowerCase s))).
Proof.
  intros Hs. revert f. induction Hs as [|c s Hc _ IH]; intros f; [constructor|].
  unfold replaceSpecial, toLowerCase in *. rewrite !map_cons.
  cbn [collapseFrom]. apply letterless_char in Hc.
  set (c' := if isWordChar (lowerChar c) || isSpace (lowerChar c)
             then lowerChar c else space) in *.
  destruct (isSpace c').
  - destruct f; [apply IH|]. constructor; [done | apply IH].
  - constructor; [done | apply IH].
Qed.

(** X6.  A text without any letter A-Z or a-z is reported for no listed
    word: digits and punctuation alone can only give [spam_pattern]. *)
Theorem letterless_text_matches_no_word (s : list ascii) :
  Forall (λ c, isLetter c = false) s →
  detectedWords (containsAbusiveLanguage (VString s)) ⊆ [spam_pattern].
Proof.
  intros Hs word [[Hw (p & q & Hn)] | [-> _]]%detected_elem;
    [|by apply list_elem_of_singleton].
  exfalso.
  assert (Forall (λ c, isLetter c = false) (normalizeText s)) as Hall.
  { unfold normalizeText.
    destruct (trim_inside (collapseSpaces (replaceSpecial (toLowerCase s))))
      as (l & r & H).
    pose proof (collapse_letterless false s Hs) as Hc.
    fold (collapseSpaces (replaceSpecial (toLowerCase s))) in Hc.
    rewrite H in Hc. apply Forall_app in Hc as [_ Hc].
    by apply Forall_app in Hc as [Hc _]. }
  rewrite Hn in Hall. apply Forall_app in Hall as [_ Hall].
  apply Forall_app in Hall as [Hall _].
  pose proof listed_normal_forms as Hl. rewrite Forall_forall in Hl.
  destruct (Hl word Hw) as [_ He].
  apply existsb_exists in He as (c & Hc & Hlet).
  rewrite Forall_forall in Hall. apply list_elem_of_In in Hc.
  by rewrite (Hall c Hc) in Hlet.
Qed.

Lemma letterless_text_matches_no_word_witness :
  detectedWords (containsAbusiveLanguage (VString (chars "2024: 100% (+7)")))
    ⊆ [spam_pattern].
Proof.
  apply (letterless_text_matches_no_word (chars "2024: 100% (+7)")).
  apply (bool_decide_unpack _). vm_compute. exact I.
Defined.

End Detection.

(** ** Further properties of the ledger and of the gate *)

Section Lifecycle.
Import Js Scanner Forum.
Local Open Scope Z_scope.

Lemma gate_missing (id : string) (w : World) :
  users w !! id = None → checkForumAccess id w = (notFound, w).
Proof.
  intros H. unfold checkForumAccess, mbind, M_bind, mret, M_ret, findById.
  by rewrite H.
Qed.

Lemma gate_stored (id : string) (w : World) (u : User) :
  users w !! id = Some u →
  checkForumAccess id w =
    if isBlockedFromForum u
    then (deniedPermanent permanentDenial (forumWarnings u), w)
    else match forumBlockedUntil u with
         | None => (next u, w)
         | Some t =>
             let w' := mkWorld (localTZA w) (clock w) (S (S (ticks w))) (users w) in
             if clock w (ticks w) <? t then
               (deniedTemporary
                  (temporaryDenial (ceilDiv (t - clock w (S (ticks w))) msPerDay))
                  t (forumWarnings u), w')
             else if t <=? clock w (S (ticks w)) then
               (next (setBlockedUntil None u),
                mkWorld (localTZA w) (clock w) (S (S (ticks w)))
                        (<[_id u := setBlockedUntil None u]> (users w)))
             else (next u, w')
         end.
Proof.
  intros H.
  unfold checkForumAccess, mbind, M_bind, mret, M_ret, findById, newDate, save.
  rewrite H. cbv beta iota zeta.
  destruct (isBlockedFromForum u); [done|].
  destruct (forumBlockedUntil u) as [t|]; [|done]. cbn [clock ticks users].
  destruct (clock w (ticks w) <? t); [done|]. cbv beta iota. cbn [clock ticks users].
  by destruct (t <=? clock w (S (ticks w))).
Qed.

Lemma gate_next (id : string) (w w' : World) (u' : User) :
  checkForumAccess id w = (next u', w') →
  ∃ u, users w !! id = Some u ∧ (u' = u ∨ u' = setBlockedUntil None u).
Proof.
  destruct (users w !! id) as [u|] eqn:Hu.
  - rewrite (gate_stored id w u Hu). intros H. exists u. split; [done|].
    destruct (isBlockedFromForum u); [done|].
    destruct (forumBlockedUntil u) as [t|]; [|left; congruence].
    cbv zeta in H. destruct (clock w (ticks w) <? t); [done|].
    destruct (t <=? clock w (S (ticks w))); [right | left]; congruence.
  - by rewrite gate_missing.
Qed.

(** X7.  Over the whole life of a document (ledger calls and passages
    through the gate, from a zero-valued state): the warning count is the
    number of history entries, the permanent block is set exactly when the
    count has reached 3, and a block date is present only from the second
    warning on. *)
Theorem lifecycle_invariants (u : User) :
  lifecycle u →
  warningCount u = Z.of_nat (length (warningHistory u)) ∧
  (isBlockedFromForum u = true ↔ 3 ≤ warningCount u) ∧
  (is_Some (forumBlockedUntil u) → 2 ≤ warningCount u).
Proof.
  induction 1 as [u (Hc & Hh & Hb & Ht) | u content title w _ IH
                 | u u' w w' _ IH Hu Hg].
  - rewrite Hc, Hh, Hb, Ht. repeat split; done.
  - destruct IH as (Hn & Hb & Ht).
    destruct (isAbusive (moderateContent content title)) eqn:H;
      [|by rewrite ledger_clean].
    destruct (ledger_flagged_parts u content title w H)
      as (Hn' & Hh' & Hb' & Ht' & _). cbv zeta in *.
    rewrite Hn', Hh', Hb', Ht', length_app. simpl length.
    split; [lia|]. split.
    + rewrite orb_true_iff, Z.leb_le. split; [|lia].
      intros [Hu | Hle]; [apply Hb in Hu|]; lia.
    + destruct (3 <=? warningCount u + 1) eqn:H3; simpl.
      * apply Z.leb_le in H3. lia.
      * destruct (warningCount u + 1 =? 2) eqn:H2.
        -- apply Z.eqb_eq in H2. lia.
        -- intros Hs. apply Ht in Hs. lia.
  - apply gate_next in Hg as (u0 & Hu0 & Hg). rewrite Hu in Hu0.
    injection Hu0 as <-. destruct Hg as [-> | ->]; [done|].
    destruct IH as (Hn & Hb & Ht).
    split; [exact Hn|]. split; [exact Hb|]. simpl. by intros [? ?].
Qed.

(** The invariants at two states of one life: after two flagged calls,
    when the block date is set; and after the gate has cleared the
    expired date and a third flagged call has blocked the account. *)
Lemma lifecycle_invariants_witness :
  (warningCount twiceWarned = Z.of_nat (length (warningHistory twiceWarned)) ∧
   forumBlockedUntil twiceWarned = Some 1710500400001 ∧
   2 ≤ warningCount twiceWarned ∧
   ¬ 3 ≤ warningCount twiceWarned) ∧
  (checkForumAccess "u1" laterWorld =
     (next releasedUser, (checkForumAccess "u1" laterWorld).2) ∧
   warningCount lockedUser = Z.of_nat (length (warningHistory lockedUser)) ∧
   length (warningHistory lockedUser) = 3%nat ∧
   isBlockedFromForum lockedUser = true ∧
   3 ≤ warningCount lockedUser).
Proof.
  assert (lifecycle twiceWarned) as H2.
  { apply life_call, life_call, life_zero. repeat split; reflexivity. }
  assert (checkForumAccess "u1" laterWorld =
            (next releasedUser, (checkForumAccess "u1" laterWorld).2)) as Hg
    by (vm_compute; reflexivity).
  assert (_id twiceWarned = "u1") as Hid by (vm_compute; reflexivity).
  assert (lifecycle lockedUser) as H3.
  { apply life_call.
    pose proof (life_gate twiceWarned releasedUser laterWorld
                  (checkForumAccess "u1" laterWorld).2 H2) as HL.
    rewrite Hid in HL. apply HL.
    - vm_compute. reflexivity.
    - exact Hg. }
  split.
  - destruct (lifecycle_invariants twiceWarned H2) as (Hn & Hb & Ht).
    split; [exact Hn|]. split; [vm_compute; reflexivity|].
    split; [apply Ht; eexists; vm_compute; reflexivity|].
    intros Hle. apply Hb in Hle. vm_compute in Hle. discriminate Hle.
  - destruct (lifecycle_invariants lockedUser H3) as (Hn & Hb & _).
    split; [exact Hg|]. split; [exact Hn|].
    split; [vm_compute; reflexivity|].
    assert (isBlockedFromForum lockedUser = true) as Hl by (vm_compute; reflexivity).
    split; [exact Hl | apply Hb, Hl].
Defined.


Lemma ledger_blocked (u : User) (content title : list ascii) (w : World) :
  isBlockedFromForum u = true →
  isBlockedFromForum (handleContentModeration u content title w).1.2 = true.
Proof.
  intros Hb. destruct (isAbusive (moderateContent content title)) eqn:H.
  - destruct (ledger_flagged_parts u content title w H) as (_ & _ & -> & _).
    by rewrite Hb.
  - by rewrite ledger_clean.
Qed.

Lemma ledgerTrace_cons (content title : list ascii)
    (calls : list (list ascii * list ascii)) (u : User) (w : World) :
  (ledgerTrace ((content, title) :: calls) u w).1 =
    (handleContentModeration u content title w).1.2 ::
    (ledgerTrace calls (handleContentModeration u content title w).1.2
                 (handleContentModeration u content title w).2).1.
Proof.
  cbn [ledgerTrace]. unfold mbind, M_bind, mret, M_ret.
  destruct (handleContentModeration u content title w) as [[o u'] w'].
  cbv beta iota zeta. cbn [fst snd].
  by destruct (ledgerTrace calls u' w').
Qed.




(** X9.  The permanent block is final: no run of ledger calls unsets
    [isBlockedFromForum], and the gate answers a stored blocked document
    with the permanent denial in every world, leaving the world as it is. *)
Theorem permanent_block_is_final (u : User) :
  isBlockedFromForum u = true →
  (∀ (calls : list (list ascii * list ascii)) (w : World),
     Forall (λ u', isBlockedFromForum u' = true) (ledgerTrace calls u w).1) ∧
  (∀ w : World,
     users w !! _id u = Some u →
     checkForumAccess (_id u) w =
       (deniedPermanent permanentDenial (forumWarnings u), w)).
Proof.
  intros Hb. split.
  - intros calls. revert u Hb.
    induction calls as [|[content title] calls IH]; intros u Hb w; [constructor|].
    rewrite ledgerTrace_cons.
    pose proof (ledger_blocked u content title w Hb) as Hb'.
    constructor; [done | by apply IH].
  - intros w Hu. by rewrite (gate_stored _ w u Hu), Hb.
Qed.

Lemma permanent_block_is_final_witness :
  let u := setBlocked true sampleUser in
  (∀ (calls : list (list ascii * list ascii)) (w : World),
     Forall (λ u', isBlockedFromForum u' = true) (ledgerTrace calls u w).1) ∧
  (∀ w : World,
     users w !! _id u = Some u →
     checkForumAccess (_id u) w =
       (deniedPermanent permanentDenial (forumWarnings u), w)).
Proof.
  apply (permanent_block_is_final (setBlocked true sampleUser)). reflexivity.
Defined.

(** X10.  The gate writes nothing but the clearing of a block date: for
    an unknown id it answers 404 and changes nothing; otherwise the
    stored document is afterwards the same or the same with
    [forumBlockedUntil] cleared, and no other document is touched. *)
Theorem gate_only_clears_block_date (id : string) (w : World) :
  wellKeyed w →
  let r := checkForumAccess id w in
  (users w !! id = None → r = (notFound, w)) ∧
  (∀ u, users w !! id = Some u →
        users r.2 !! id = Some u ∨
        users r.2 !! id = Some (setBlockedUntil None u)) ∧
  (∀ j, j ≠ id → users r.2 !! j = users w !! j) ∧
  wellKeyed r.2.
Proof.
  intros Hk r. subst r. destruct (users w !! id) as [u|] eqn:Hu.
  - rewrite (gate_stored id w u Hu). pose proof (Hk id u Hu) as Hid.
    assert (wellKeyed (mkWorld (localTZA w) (clock w) (S (S (ticks w)))
              (<[_id u := setBlockedUntil None u]> (users w)))) as Hk'.
    { intros j v. cbn [users]. rewrite Hid, lookup_insert.
      case_decide; [intros [= <-]; simpl; congruence | apply Hk]. }
    split; [done|]. destruct (isBlockedFromForum u).
    { repeat split; [intros ? [= <-]; by left | done..]. }
    destruct (forumBlockedUntil u) as [t|].
    2: { repeat split; [intros ? [= <-]; by left | done..]. }
    cbv zeta. destruct (clock w (ticks w) <? t).
    { repeat split; [intros ? [= <-]; by left | done..]. }
    destruct (t <=? clock w (S (ticks w))).
    + split; [|split; [|done]].
      * intros ? [= <-]. right. cbn [snd users]. rewrite Hid.
        apply lookup_insert_eq.
      * intros j Hj. cbn [snd users]. rewrite Hid. by apply lookup_insert_ne.
    + repeat split; [intros ? [= <-]; by left | done..].
  - rewrite (gate_missing id w Hu). repeat split; done.
Qed.

Lemma gate_only_clears_block_date_witness :
  let r := checkForumAccess "u1" expiredWorld in
  (users expiredWorld !! "u1" = None → r = (notFound, expiredWorld)) ∧
  (∀ u, users expiredWorld !! "u1" = Some u →
        users r.2 !! "u1" = Some u ∨
        users r.2 !! "u1" = Some (setBlockedUntil None u)) ∧
  (∀ j, j ≠ "u1" → users r.2 !! j = users expiredWorld !! j) ∧
  wellKeyed r.2.
Proof.
  apply (gate_only_clears_block_date "u1" expiredWorld).
  intros id u. unfold expiredWorld. cbn [users].
  rewrite lookup_singleton. case_decide as Hid; [|discriminate].
  intros [= <-]. exact Hid.
Defined.

(** X11.  A ledger call saves only its own document: a flagged call
    stores the document it returns under that user's id, a clean call
    stores nothing, and every other stored document is left as it is. *)
Theorem ledger_saves_only_its_user
    (u : User) (content title : list ascii) (w : World) :
  let r := handleContentModeration u content title w in
  _id r.1.2 = _id u ∧
  (isAbusive (moderateContent content title) = true →
     users r.2 !! _id u = Some r.1.2) ∧
  (isAbusive (moderateContent content title) = false → users r.2 = users w) ∧
  (∀ j, j ≠ _id u → users r.2 !! j = users w !! j) ∧
  (wellKeyed w → wellKeyed r.2).
Proof.
  intros r. subst r.
  destruct (isAbusive (moderateContent content title)) eqn:H.
  - destruct (ledger_flagged_parts u content title w H)
      as (_ & _ & _ & _ & _ & Hid & Hs & _). cbv zeta in *.
    rewrite Hs. split; [done|]. split; [intros _; apply lookup_insert_eq|].
    split; [done|]. split.
    + intros j Hj. by apply lookup_insert_ne.
    + intros Hk j v. rewrite Hs, lookup_insert.
      case_decide; [intros [= <-]; congruence | apply Hk].
  - rewrite ledger_clean by done. repeat split; done.
Qed.

Lemma ledger_saves_only_its_user_witness :
  users (handleContentModeration sampleUser (chars "damn it") [] sampleWorld).2
    !! _id sampleUser =
  Some (handleContentModeration sampleUser (chars "damn it") [] sampleWorld).1.2.
Proof.
  apply (proj1 (proj2 (ledger_saves_only_its_user sampleUser (chars "damn it") []
                         sampleWorld))).
  vm_compute. reflexivity.
Defined.





End Lifecycle.

(** ** The submission handlers *)

Section Submissions.
Import Js Scanner Forum Routes.
Local Open Scope Z_scope.

Lemma moderated_clean (user : User) (content title : list ascii) (w : World) :
  isAbusive (moderateContent content title) = false →
  moderated user content title w = (proceed user, w).
Proof.
  intros H. unfold moderated, mbind, M_bind, mret, M_ret.
  by rewrite ledger_clean.
Qed.

Lemma moderated_flagged (user : User) (content title : list ascii) (w : World) :
  isAbusive (moderateContent content title) = true →
  let r := handleContentModeration user content title w in
  let n := warningCount user + 1 in
  moderated user content title w =
    (if 3 <=? n then forbidden (Some permanentMessage) (Some n) None
     else if n =? 2 then
       forbidden (Some temporaryMessage) (Some n)
                 (Some (addDays (localTZA w) (clock w (S (ticks w))) 7))
     else warnedRequest (Some (warningMessage n)) (Some n)
                        (Some (detectedWords (moderateContent content title))),
     r.2).
Proof.
  intros H. cbv zeta. unfold moderated, mbind, M_bind, mret, M_ret.
  rewrite (ledger_flagged user content title w H). cbv zeta.
  destruct (3 <=? warningCount user + 1); [done|].
  by destruct (warningCount user + 1 =? 2).
Qed.



(** X15.  A reply is moderated on its content alone: without content
    the handler answers 400 and records nothing; otherwise it goes on
    exactly when the scanner does not flag the content, with the user
    untouched, and a flagged reply is refused with 403 or 400. *)
Theorem reply_is_stored_only_if_clean
    (user : User) (content : option (list ascii)) (w : World) :
  let r := addReply user content w in
  let scan := containsAbusiveLanguage (VString (default [] content)) in
  (present content = false → r = (badRequest (chars "Content is required"), w)) ∧
  (present content = true → isAbusive scan = false → r = (proceed user, w)) ∧
  (present content = true → isAbusive scan = true →
     (∀ u, r.1 ≠ proceed u) ∧
     ((∃ e n t, r.1 = forbidden e n t) ∨ (∃ e n d, r.1 = warnedRequest e n d))).
Proof.
  cbv zeta. unfold addReply.
  destruct (present content); cbn [negb]; (split; [done|]);
    (split; [|intros ? Hf]); try done.
  - intros _ H. by apply moderated_clean.
  - change (containsAbusiveLanguage (VString (default [] content)))
      with (moderateContent (default [] content) []) in Hf.
    rewrite (moderated_flagged _ _ _ _ Hf). cbv zeta. cbn [fst snd]. split.
    + intros u. destruct (3 <=? _); [done|]. by destruct (_ =? 2).
    + destruct (3 <=? _); [left; eauto|].
      destruct (_ =? 2); [left | right]; eauto.
Qed.

Lemma reply_is_stored_only_if_clean_witness :
  addReply sampleUser (Some (chars "Good one")) storedWorld
    = (proceed sampleUser, storedWorld).
Proof.
  apply (proj1 (proj2 (reply_is_stored_only_if_clean sampleUser
                         (Some (chars "Good one")) storedWorld))).
  - reflexivity.
  - vm_compute. reflexivity.
Defined.

Lemma throughGate_denied (id : string) (handler : User → M Submission)
    (w w' : World) (g : GateResult) :
  checkForumAccess id w = (g, w') → (∀ u, g ≠ next u) →
  throughGate id handler w = (fromGate g, w').
Proof.
  intros Hg Hn. unfold throughGate, mbind, M_bind, mret, M_ret. rewrite Hg.
  destruct g; try done. by destruct (Hn user).
Qed.


(** X16.  A blocked user's submission never reaches moderation: when the
    stored document is permanently blocked, or temporarily blocked with
    the clock before the block date, [POST /posts] and the reply route
    answer with the gate's denial and no document changes, whatever the
    submitted text. *)
Theorem denied_requests_record_nothing
    (id : string) (u : User) (w : World)
    (title content category : option (list ascii)) :
  users w !! id = Some u →
  isBlockedFromForum u = true ∨
  (∃ t, forumBlockedUntil u = Some t ∧ clock w (ticks w) < t) →
  ∃ (g : GateResult) (w' : World),
    postPosts id title content category w = (fromGate g, w') ∧
    postReplies id content w = (fromGate g, w') ∧
    users w' = users w ∧
    ((∃ e n, g = deniedPermanent e n) ∨ (∃ e t n, g = deniedTemporary e t n)).
Proof.
  intros Hu Hb. pose proof (gate_stored id w u Hu) as Hg.
  destruct (isBlockedFromForum u) eqn:Hbl.
  - eexists _, w. unfold postPosts, postReplies.
    rewrite !(throughGate_denied _ _ _ _ _ Hg) by done. eauto 10.
  - destruct Hb as [? | (t & Ht & Hlt)]; [done|]. rewrite Ht in Hg.
    cbv zeta in Hg. rewrite (proj2 (Z.ltb_lt _ _) Hlt) in Hg.
    eexists _, _. unfold postPosts, postReplies.
    rewrite !(throughGate_denied _ _ _ _ _ Hg) by done. eauto 10.
Qed.

Lemma denied_requests_record_nothing_witness :
  ∃ (g : GateResult) (w' : World),
    postPosts "u1" (Some (chars "Hi")) (Some (chars "damn you")) (Some (chars "general"))
              (mkWorld (localTZA sampleWorld) (clock sampleWorld) 0 {[ "u1" := setBlocked true sampleUser ]})
      = (fromGate g, w') ∧
    postReplies "u1" (Some (chars "damn you"))
              (mkWorld (localTZA sampleWorld) (clock sampleWorld) 0 {[ "u1" := setBlocked true sampleUser ]})
      = (fromGate g, w') ∧
    users w' = {[ "u1" := setBlocked true sampleUser ]} ∧
    ((∃ e n, g = deniedPermanent e n) ∨ (∃ e t n, g = deniedTemporary e t n)).
Proof.
  refine (denied_requests_record_nothing "u1" (setBlocked true sampleUser)
            (mkWorld (localTZA sampleWorld) (clock sampleWorld) 0 {[ "u1" := setBlocked true sampleUser ]})
            (Some (chars "Hi")) (Some (chars "damn you")) (Some (chars "general"))
            _ _).
  - vm_compute. reflexivity.
  - left. reflexivity.
Defined.






End Submissions.

(** ** Votes *)

Section VoteFacts.
Import Votes.

Lemma indexOf_spec (l : list string) (x : string) :
  match indexOf l x with
  | None => x ∉ l
  | Some i => ∃ p q, l = p ++ x :: q ∧ length p = i ∧ x ∉ p
  end.
Proof.
  induction l as [|y l IH]; simpl; [apply not_elem_of_nil|].
  case_bool_decide as Hy.
  - subst y. exists [], l. repeat split. apply not_elem_of_nil.
  - destruct (indexOf l x) as [i|]; simpl.
    + destruct IH as (p & q & -> & <- & Hp). exists (y :: p), q.
      repeat split. by apply not_elem_of_cons.
    + by apply not_elem_of_cons.
Qed.

(** The two cases of the toggle: the user is appended, or the first
    occurrence of the user is removed. *)
Lemma toggle_cases (l : list string) (x : string) :
  (indexOf l x = None ∧ (x ∉ l) ∧ toggle l x = l ++ [x]) ∨
  (∃ p q, is_Some (indexOf l x) ∧ l = p ++ x :: q ∧ (x ∉ p) ∧
          toggle l x = p ++ q).
Proof.
  unfold toggle. pose proof (indexOf_spec l x) as H.
  destruct (indexOf l x) as [i|]; [right | by left].
  destruct H as (p & q & -> & <- & Hp). exists p, q.
  repeat split; [by eexists | done | apply delete_middle].
Qed.

Lemma toggle_others (l : list string) (x v : string) :
  v ≠ x → v ∈ toggle l x ↔ v ∈ l.
Proof.
  intros Hv. destruct (toggle_cases l x)
    as [(_ & _ & ->) | (p & q & _ & -> & _ & ->)];
    rewrite !elem_of_app, ?elem_of_cons, ?elem_of_nil; tauto.
Qed.

Lemma toggle_NoDup (l : list string) (x : string) :
  NoDup l → NoDup (toggle l x) ∧ (x ∈ toggle l x ↔ x ∉ l).
Proof.
  intros Hl. destruct (toggle_cases l x)
    as [(_ & Hx & ->) | (p & q & _ & -> & Hp & ->)].
  - split.
    + apply NoDup_app. repeat split; [done| |apply NoDup_singleton].
      intros y Hy ->%list_elem_of_singleton. done.
    + rewrite elem_of_app, list_elem_of_singleton. tauto.
  - apply NoDup_app in Hl as (Hnp & Hpq & Hq).
    apply NoDup_cons in Hq as [Hxq Hq]. split.
    + apply NoDup_app. repeat split; [done| |done].
      intros y Hy Hyq. apply (Hpq y Hy). by right.
    + rewrite !elem_of_app, elem_of_cons. tauto.
Qed.

Lemma toggle_length (l : list string) (x : string) :
  length (toggle l x) =
    if bool_decide (indexOf l x = None) then S (length l) else pred (length l).
Proof.
  destruct (toggle_cases l x)
    as [(Hi & _ & ->) | (p & q & [i Hi] & -> & _ & ->)]; rewrite Hi.
  - rewrite bool_decide_eq_true_2 by done. rewrite length_app. simpl. lia.
  - rewrite bool_decide_eq_false_2 by done. rewrite !length_app. simpl. lia.
Qed.


Lemma indexOf_None (l : list string) (x : string) :
  bool_decide (indexOf l x = None) = bool_decide (x ∉ l).
Proof.
  pose proof (indexOf_spec l x) as H. destruct (indexOf l x) as [i|].
  - destruct H as (p & q & -> & _ & _).
    rewrite bool_decide_eq_false_2 by done.
    rewrite bool_decide_eq_false_2; [done|].
    intros Hn. apply Hn, elem_of_app. right. by left.
  - by rewrite !bool_decide_eq_true_2.
Qed.

Lemma replyById_spec (rs : list Reply) (replyId : string) :
  match replyById rs replyId with
  | None => Forall (λ r, reply_id r ≠ replyId) rs
  | Some (i, r) =>
      rs !! i = Some r ∧ reply_id r = replyId ∧
      Forall (λ r', reply_id r' ≠ replyId) (take i rs)
  end.
Proof.
  induction rs as [|r rs IH]; simpl; [constructor|].
  case_bool_decide as Hr; [repeat split; [done | constructor]|].
  destruct (replyById rs replyId) as [[i r']|]; simpl.
  - destruct IH as (? & ? & ?). repeat split; [done..|]. by constructor.
  - by constructor.
Qed.

Lemma upvotePost_stored
    (posts : gmap string ForumPost) (postId userId : string) (post : ForumPost) :
  posts !! postId = Some post → _id post = postId →
  upvotePost postId userId posts =
    (voted (bool_decide (userId ∉ upvotes post))
           (length (toggle (upvotes post) userId)),
     <[postId := mkForumPost postId (toggle (upvotes post) userId) (replies post)]>
       posts).
Proof.
  intros Hp Hid. unfold upvotePost. rewrite Hp. cbv zeta.
  cbn [_id upvotes]. by rewrite Hid, indexOf_None.
Qed.

(** X18.  An upvote is a toggle of one vote: on a stored post whose
    voters are distinct, the handler adds the user when absent and
    removes the user when present; the voters stay distinct, every other
    user's vote and the replies are untouched, no other post changes, and
    the response reports the new state and the stored count. *)
Theorem upvote_toggles_one_vote
    (posts : gmap string ForumPost) (postId userId : string) (post : ForumPost) :
  posts !! postId = Some post → _id post = postId → NoDup (upvotes post) →
  let r := upvotePost postId userId posts in
  ∃ post',
    r.2 !! postId = Some post' ∧
    r.1 = voted (bool_decide (userId ∉ upvotes post)) (length (upvotes post')) ∧
    NoDup (upvotes post') ∧
    (userId ∈ upvotes post' ↔ userId ∉ upvotes post) ∧
    (∀ v, v ≠ userId → v ∈ upvotes post' ↔ v ∈ upvotes post) ∧
    length (upvotes post') =
      (if bool_decide (userId ∉ upvotes post)
       then S (length (upvotes post)) else pred (length (upvotes post))) ∧
    replies post' = replies post ∧
    (∀ j, j ≠ postId → r.2 !! j = posts !! j).
Proof.
  intros Hp Hid Hnd r. subst r. rewrite (upvotePost_stored _ _ _ _ Hp Hid).
  cbn [fst snd].
  eexists. split; [apply lookup_insert_eq|]. cbn [upvotes replies].
  destruct (toggle_NoDup (upvotes post) userId Hnd) as [Hnd' Hflip].
  repeat split; try done.
  - apply Hflip.
  - apply Hflip.
  - by apply toggle_others.
  - by apply toggle_others.
  - by rewrite toggle_length, indexOf_None.
  - intros j Hj. by apply lookup_insert_ne.
Qed.

Lemma upvote_toggles_one_vote_witness :
  let r := upvotePost "p1" "u1" samplePosts in
  ∃ post',
    r.2 !! "p1" = Some post' ∧
    r.1 = voted (bool_decide ("u1" ∉ upvotes samplePost)) (length (upvotes post')) ∧
    NoDup (upvotes post') ∧
    ("u1" ∈ upvotes post' ↔ "u1" ∉ upvotes samplePost) ∧
    (∀ v, v ≠ "u1" → v ∈ upvotes post' ↔ v ∈ upvotes samplePost) ∧
    length (upvotes post') =
      (if bool_decide ("u1" ∉ upvotes samplePost)
       then S (length (upvotes samplePost)) else pred (length (upvotes samplePost))) ∧
    replies post' = replies samplePost ∧
    (∀ j, j ≠ "p1" → r.2 !! j = samplePosts !! j).
Proof.
  apply (upvote_toggles_one_vote samplePosts "p1" "u1" samplePost).
  - vm_compute. reflexivity.
  - reflexivity.
  - apply (bool_decide_unpack _). vm_compute. exact I.
Defined.



(** X20.  A vote on a reply touches that reply alone: without a reply of
    the given id the handler answers 404 and changes nothing; otherwise,
    on the first reply with that id, it appends the user to the voters
    when the user is not among them and answers [upvoted: true], and
    else removes the first occurrence of the user and answers
    [upvoted: false].  When the voters of the reply are distinct, they
    stay distinct and the user is a voter afterwards exactly when not
    before; when the user occurs twice, the user is still a voter after
    the removal.  The handler keeps the id of the reply, leaves the
    post's own votes, the other users' votes, the other replies and the
    other posts as they were, and reports the reply's new vote count. *)
Theorem reply_vote_touches_one_reply
    (posts : gmap string ForumPost) (postId replyId userId : string)
    (post : ForumPost) :
  posts !! postId = Some post → _id post = postId →
  let r := upvoteReply postId replyId userId posts in
  (Forall (λ reply, reply_id reply ≠ replyId) (replies post) →
     r = (notFound (Js.chars "Reply not found"), posts)) ∧
  (∀ (i : nat) (reply : Reply),
     replies post !! i = Some reply → reply_id reply = replyId →
     Forall (λ reply', reply_id reply' ≠ replyId) (take i (replies post)) →
     ∃ post' reply',
       r.2 !! postId = Some post' ∧
       upvotes post' = upvotes post ∧
       replies post' !! i = Some reply' ∧
       reply_id reply' = replyId ∧
       (userId ∉ reply_upvotes reply →
          reply_upvotes reply' = reply_upvotes reply ++ [userId] ∧
          r.1 = voted true (S (length (reply_upvotes reply)))) ∧
       (∀ before after : list string,
          reply_upvotes reply = before ++ userId :: after → userId ∉ before →
          reply_upvotes reply' = before ++ after ∧
          r.1 = voted false (length before + length after) ∧
          (userId ∈ reply_upvotes reply' ↔ userId ∈ after)) ∧
       (NoDup (reply_upvotes reply) →
          NoDup (reply_upvotes reply') ∧
          (userId ∈ reply_upvotes reply' ↔ userId ∉ reply_upvotes reply)) ∧
       (∀ v, v ≠ userId → v ∈ reply_upvotes reply' ↔ v ∈ reply_upvotes reply) ∧
       (∀ j, j ≠ i → replies post' !! j = replies post !! j) ∧
       length (replies post') = length (replies post) ∧
       r.1 = voted (bool_decide (userId ∉ reply_upvotes reply))
                   (length (reply_upvotes reply')) ∧
       (∀ k, k ≠ postId → r.2 !! k = posts !! k)).
Proof.
  intros Hp Hid r. subst r. unfold upvoteReply. rewrite Hp.
  pose proof (replyById_spec (replies post) replyId) as Hspec. split.
  - intros Hall. destruct (replyById _ _) as [[i reply]|]; [|done].
    destruct Hspec as (Hi & Hr & _). rewrite Forall_forall in Hall.
    destruct (Hall reply); [|done]. apply list_elem_of_lookup. eauto.
  - intros i reply Hi Hr Hbefore.
    destruct (replyById _ _) as [[i' reply']|].
    2: { rewrite Forall_forall in Hspec. destruct (Hspec reply); [|done].
         apply list_elem_of_lookup. eauto. }
    destruct Hspec as (Hi' & Hr' & Hbefore').
    assert (i' = i) as ->.
    { destruct (Nat.lt_trichotomy i' i) as [Hlt | [-> | Hlt]]; [|done|].
      - rewrite Forall_forall in Hbefore. destruct (Hbefore reply'); [|done].
        apply list_elem_of_lookup. exists i'.
        by rewrite lookup_take_lt.
      - rewrite Forall_forall in Hbefore'. destruct (Hbefore' reply); [|done].
        apply list_elem_of_lookup. exists i.
        by rewrite lookup_take_lt. }
    rewrite Hi in Hi'. injection Hi' as <-. cbv zeta.
    cbn [fst snd _id upvotes replies reply_id reply_upvotes].
    rewrite Hid, indexOf_None. eexists _, _.
    split; [apply lookup_insert_eq|]. cbn [upvotes replies].
    split; [done|]. split.
    { apply list_lookup_insert_eq. by eapply lookup_lt_Some. }
    cbn [reply_id reply_upvotes]. split; [done|]. split.
    { intros Hx. destruct (toggle_cases (reply_upvotes reply) userId)
        as [(_ & _ & ->) | (p & q & _ & Heq & _ & _)].
      - rewrite bool_decide_eq_true_2 by done.
        rewrite length_app. simpl. by rewrite Nat.add_1_r.
      - destruct Hx. rewrite Heq. apply elem_of_app. right. by left. }
    split.
    { intros before after Heq Hx.
      assert (userId ∈ reply_upvotes reply) as Hin
        by (rewrite Heq; apply elem_of_app; right; by left).
      destruct (toggle_cases (reply_upvotes reply) userId)
        as [(_ & Hn & _) | (p & q & _ & Heq' & Hp' & ->)]; [done|].
      assert (p = before ∧ q = after) as [-> ->].
      { rewrite Heq in Heq'. clear -Heq' Hx Hp'.
        revert p Heq' Hp'. induction before as [|b before IH]; intros p Heq' Hp'.
        - destruct p as [|c p]; [by injection Heq' as ->|].
          injection Heq' as -> _. destruct Hp'. by left.
        - destruct p as [|c p].
          + injection Heq' as -> _. destruct Hx. by left.
          + injection Heq' as -> Heq'.
            apply not_elem_of_cons in Hx as [_ Hx].
            apply not_elem_of_cons in Hp' as [_ Hp'].
            by destruct (IH Hx p Heq' Hp') as [-> ->]. }
      split; [done|]. rewrite bool_decide_eq_false_2 by tauto.
      rewrite length_app. split; [done|].
      rewrite elem_of_app. split; [intros [?|?]; [done | done] | by right]. }
    split; [apply toggle_NoDup|].
    split; [intros v Hv; by apply toggle_others|].
    split; [intros j Hj; by apply list_lookup_insert_ne|].
    split; [apply length_insert|]. split; [done|].
    intros k Hk. by apply lookup_insert_ne.
Qed.

(** On the sample post: a vote on a reply that is not there; the vote
    of a new voter on reply "r1"; and the vote of a user who occurs
    twice among the voters of a reply, who stays a voter. *)
Lemma reply_vote_touches_one_reply_witness :
  upvoteReply "p1" "r9" "u1" samplePosts =
    (notFound (Js.chars "Reply not found"), samplePosts) ∧
  (∃ post' reply',
     (upvoteReply "p1" "r1" "u1" samplePosts).2 !! "p1" = Some post' ∧
     replies post' !! 0%nat = Some reply' ∧
     reply_upvotes reply' = ["u2"; "u1"] ∧
     (upvoteReply "p1" "r1" "u1" samplePosts).1 = voted true 2) ∧
  (∃ post' reply',
     (upvoteReply "p2" "r1" "u1" doubledPosts).2 !! "p2" = Some post' ∧
     replies post' !! 0%nat = Some reply' ∧
     reply_upvotes reply' = ["u2"; "u1"] ∧
     (upvoteReply "p2" "r1" "u1" doubledPosts).1 = voted false 2 ∧
     "u1" ∈ reply_upvotes reply').
Proof.
  split; [|split].
  - refine (proj1 (reply_vote_touches_one_reply samplePosts "p1" "r9" "u1"
                     samplePost _ _) _).
    + vm_compute. reflexivity.
    + reflexivity.
    + apply (bool_decide_unpack _). vm_compute. exact I.
  - destruct (reply_vote_touches_one_reply samplePosts "p1" "r1" "u1"
                samplePost) as [_ H].
    + vm_compute. reflexivity.
    + reflexivity.
    + destruct (H 0%nat (mkReply "r1" ["u2"]))
        as (post' & reply' & Hp & _ & Hr & _ & Hadd & _).
      * reflexivity.
      * reflexivity.
      * constructor.
      * destruct Hadd as [Hv Hres].
        -- apply (bool_decide_unpack _). vm_compute. exact I.
        -- exists post', reply'. split; [exact Hp|]. split; [exact Hr|].
           split; [exact Hv | exact Hres].
  - destruct (reply_vote_touches_one_reply doubledPosts "p2" "r1" "u1"
                doubledPost) as [_ H].
    + vm_compute. reflexivity.
    + reflexivity.
    + destruct (H 0%nat (mkReply "r1" ["u1"; "u2"; "u1"]))
        as (post' & reply' & Hp & _ & Hr & _ & _ & Hdel & _).
      * reflexivity.
      * reflexivity.
      * constructor.
      * destruct (Hdel [] ["u2"; "u1"]) as (Hv & Hres & Hin).
        -- reflexivity.
        -- apply (bool_decide_unpack _). vm_compute. exact I.
        -- exists post', reply'. split; [exact Hp|]. split; [exact Hr|].
           split; [exact Hv|]. split; [exact Hres|].
           apply Hin. apply (bool_decide_unpack _). vm_compute. exact I.
Defined.

End VoteFacts.

(** ** The crop calendar *)

Section Seasons.
Import Js CropCalendar.
Local Open Scope Z_scope.

(** X21.  The season of a date: June to October is kharif, November to
    April is rabi, and zaid is returned for May only; a valid date is
    never classed year-round, an invalid one always is. *)
Theorem season_of_month (date : JsDate) :
  (getMonth date = None → getSeasonFromDate date = yearRound) ∧
  (∀ m, getMonth date = Some m → 0 ≤ m ≤ 11 →
        getSeasonFromDate date ≠ yearRound ∧
        (getSeasonFromDate date = kharif ↔ 5 ≤ m ≤ 9) ∧
        (getSeasonFromDate date = rabi ↔ m ≤ 3 ∨ 10 ≤ m) ∧
        (getSeasonFromDate date = zaid ↔ m = 4)).
Proof.
  unfold getSeasonFromDate. split; [by intros ->|]. intros m -> Hm. cbv zeta.
  destruct (6 <=? m + 1) eqn:H1, (m + 1 <=? 10) eqn:H2,
           (11 <=? m + 1) eqn:H3, (m + 1 <=? 4) eqn:H4,
           (3 <=? m + 1) eqn:H5, (m + 1 <=? 6) eqn:H6;
    cbn [andb orb]; repeat split; try done; try lia; intros; exfalso; lia.
Qed.

Lemma season_of_month_witness :
  getSeasonFromDate sowingInMay ≠ yearRound ∧
  (getSeasonFromDate sowingInMay = kharif ↔ 5 ≤ 4 ≤ 9) ∧
  (getSeasonFromDate sowingInMay = rabi ↔ 4 ≤ 3 ∨ 10 ≤ 4) ∧
  (getSeasonFromDate sowingInMay = zaid ↔ 4 = 4).
Proof.
  apply (proj2 (season_of_month sowingInMay) 4).
  - reflexivity.
  - lia.
Defined.

Lemma timeClip_Some (t : Z) : Z.abs t ≤ maxTime → timeClip t = Some t.
Proof. intros H. unfold timeClip. by rewrite (proj2 (Z.leb_le _ _) H). Qed.

Lemma timeClip_inv (t d : Z) : timeClip t = Some d → d = t ∧ Z.abs t ≤ maxTime.
Proof.
  unfold timeClip. destruct (Z.abs t <=? maxTime) eqn:H; [|done].
  intros [= <-]. split; [done | by apply Z.leb_le].
Qed.

Lemma ownTemplate_elem (entries : list (list ascii * CropTemplate))
    (key : list ascii) (template : CropTemplate) :
  ownTemplate entries key = Some template → (key, template) ∈ entries.
Proof.
  induction entries as [|[name t] entries IH]; simpl; [done|].
  case_bool_decide as Hn.
  - intros [= <-]. subst. by left.
  - intros H. right. by apply IH.
Qed.

Lemma ownTemplate_first (entries : list (list ascii * CropTemplate))
    (key : list ascii) (template : CropTemplate) :
  NoDup (map fst entries) → (key, template) ∈ entries →
  ownTemplate entries key = Some template.
Proof.
  induction entries as [|[name t] entries IH]; simpl.
  - by intros _ ?%elem_of_nil.
  - intros [Hn Hnd]%NoDup_cons [[= <- <-] | Hin]%elem_of_cons.
    + by rewrite bool_decide_eq_true_2.
    + rewrite bool_decide_eq_false_2; [by apply IH|].
      intros ->. apply Hn. apply list_elem_of_fmap. by exists (key, template).
Qed.

Lemma table_names_distinct : NoDup (map fst cropTaskTemplates).
Proof. apply (bool_decide_unpack _). by vm_compute. Qed.

Lemma table_bounded :
  Forall (λ entry, boundedTemplate entry.2 = true) cropTaskTemplates.
Proof. repeat constructor. Qed.

Lemma table_names_lower :
  Forall (λ entry, toLowerCase entry.1 = entry.1
                   ∧ (entry.1 ∉ inheritedNames) ∧ entry.1 ≠ [])
         cropTaskTemplates.
Proof.
  repeat constructor; try done; apply (bool_decide_unpack _); by vm_compute.
Qed.

Lemma generate_own (crop : list ascii) (date : JsDate) (template : CropTemplate) :
  ownTemplate cropTaskTemplates (toLowerCase crop) = Some template →
  generateTasksFromTemplate crop date =
    returns (flat_map (expand template (getTime date)) (tasks template))
            (season template)
            (dateAfter (getTime date) (durationDays template * 24 * 60 * 60 * 1000)).
Proof.
  intros H. unfold generateTasksFromTemplate, lookupTemplate. by rewrite H.
Qed.

(** The dates that one task template contributes lie between three days
    before sowing and the end of the duration. *)
Lemma expand_bounds (template : CropTemplate) (t : Z) (tt : TaskTemplate) :
  -3 ≤ offsetDays tt ≤ durationDays template →
  match recurring tt with Some every => 0 < every | None => True end →
  0 ≤ durationDays template ≤ 365 →
  Z.abs t ≤ maxTime - 365 * 86400000 →
  Forall (λ task, ∃ d, scheduledDate task = Some d ∧
                       t - 3 * 86400000 ≤ d ≤ t + durationDays template * 86400000)
         (expand template (Some t) tt).
Proof.
  intros Hoff Hrec Hdur Ht. unfold maxTime in Ht.
  assert (Forall (λ task, ∃ d, scheduledDate task = Some d ∧
                   t - 3 * 86400000 ≤ d ≤ t + durationDays template * 86400000)
            [ mkTask (type tt) (title tt) (describe (stage tt))
                     (setDatePlus (Some t) (offsetDays tt)) (stage tt) ]) as Hone.
  { constructor; [|constructor]. exists (t + offsetDays tt * 86400000).
    cbn [scheduledDate setDatePlus]. change Forum.msPerDay with 86400000.
    split; [apply timeClip_Some; unfold maxTime|]; lia. }
  unfold expand. destruct (recurring tt) as [every|]; [|exact Hone].
  rewrite (proj2 (Z.eqb_neq every 0)) by lia.
  apply Forall_forall. intros task Hin.
  apply list_elem_of_In, in_flat_map in Hin as (i & _ & Hin). cbv zeta in Hin.
  destruct (dateLe _ _) eqn:Hle; [|by destruct Hin].
  destruct Hin as [<- | []]. cbn [scheduledDate].
  unfold dateLe, setDatePlus, dateAfter in *.
  change Forum.msPerDay with 86400000 in *.
  destruct (timeClip (t + (offsetDays tt + Z.of_nat i * every) * 86400000))
    as [d|] eqn:Hd; [|done].
  destruct (timeClip (t + durationDays template * 24 * 60 * 60 * 1000))
    as [y|] eqn:Hy; [|done].
  apply timeClip_inv in Hd as [-> _]. apply timeClip_inv in Hy as [-> _].
  apply Z.leb_le in Hle. exists (t + (offsetDays tt + Z.of_nat i * every) * 86400000).
  split; [done|]. nia.
Qed.

(** X22.  For each of the ten crops, named in any casing, and a sowing
    date at least a year inside the range of dates, the generated
    calendar has the season of the crop, a harvest date [durationDays]
    days after sowing, at least one task, and no task earlier than three
    days before sowing or later than the harvest date. *)
Theorem tasks_fall_within_the_season
    (crop : list ascii) (template : CropTemplate) (date : JsDate) (t : Z) :
  ownTemplate cropTaskTemplates (toLowerCase crop) = Some template →
  getTime date = Some t →
  Z.abs t ≤ maxTime - 365 * 86400000 →
  ∃ tasks,
    generateTasksFromTemplate crop date =
      returns tasks (season template)
              (Some (t + durationDays template * 86400000)) ∧
    tasks ≠ [] ∧
    Forall (λ task, ∃ d, scheduledDate task = Some d ∧
                         t - 3 * 86400000 ≤ d ≤ t + durationDays template * 86400000)
           tasks.
Proof.
  intros Hown Ht Hrange. pose proof (ownTemplate_elem _ _ _ Hown) as Hin.
  rewrite (generate_own _ _ _ Hown), Ht.
  pose proof table_bounded as Hb. rewrite Forall_forall in Hb.
  specialize (Hb _ Hin). cbn [snd] in Hb. unfold boundedTemplate in Hb.
  apply andb_true_iff in Hb as [[[Hfirst Hall]%andb_true_iff Hd0]%andb_true_iff Hd1].
  apply Z.leb_le in Hd0, Hd1. rewrite forallb_forall in Hall.
  eexists. split; [|split].
  - f_equal. unfold dateAfter, maxTime in *. rewrite timeClip_Some; [f_equal; lia|].
    unfold maxTime. lia.
  - destruct (tasks template) as [|first rest]; [done|].
    apply bool_decide_eq_true in Hfirst. cbn [flat_map]. unfold expand at 1.
    by rewrite Hfirst.
  - apply Forall_forall. intros task Htask.
    apply list_elem_of_In, in_flat_map in Htask as (tt & Htt & Htask).
    specialize (Hall tt Htt).
    apply andb_true_iff in Hall as [[Ho1 Ho2]%andb_true_iff Hrec].
    apply Z.leb_le in Ho1, Ho2.
    pose proof (expand_bounds template t tt (conj Ho1 Ho2)) as He.
    rewrite Forall_forall in He. apply He; [|lia|done|by apply list_elem_of_In].
    destruct (recurring tt); [by apply Z.ltb_lt | done].
Qed.

Lemma tasks_fall_within_the_season_witness :
  ∃ template tasks,
    ownTemplate cropTaskTemplates (chars "sugarcane") = Some template ∧
    generateTasksFromTemplate (chars "Sugarcane") sowingInMay =
      returns tasks (season template)
              (Some (1715731200000 + durationDays template * 86400000)) ∧
    tasks ≠ [] ∧
    Forall (λ task, ∃ d, scheduledDate task = Some d ∧
                         1715731200000 - 3 * 86400000 ≤ d
                         ≤ 1715731200000 + durationDays template * 86400000)
           tasks.
Proof.
  destruct (ownTemplate cropTaskTemplates (chars "sugarcane"))
    as [template|] eqn:Hown; [|vm_compute in Hown; discriminate].
  destruct (tasks_fall_within_the_season (chars "Sugarcane") template
              sowingInMay 1715731200000 Hown eq_refl)
    as (tasks & Hg & Hne & Hall).
  - vm_compute. discriminate.
  - exists template, tasks. repeat split; assumption.
Defined.

Lemma create_given (crop : list ascii) (date : JsDate) :
  crop ≠ [] →
  create (Some crop) (Some date) =
    match ownTemplate cropTaskTemplates (toLowerCase crop) with
    | Some template =>
        if bool_decide (season template = yearRound)
           || bool_decide (season template = getSeasonFromDate date)
        then calendar crop (season template) date
               (dateAfter (getTime date) (durationDays template * 24 * 60 * 60 * 1000))
               (flat_map (expand template (getTime date)) (tasks template))
        else seasonMismatch (getSeasonFromDate date) (Some (season template))
    | None =>
        if bool_decide (toLowerCase crop ∈ inheritedNames)
        then seasonMismatch (getSeasonFromDate date) None
        else cropNotFound
    end.
Proof.
  intros Hc. unfold create, truthy. rewrite bool_decide_eq_false_2 by done.
  cbn [negb]. cbv zeta. unfold generateTasksFromTemplate, lookupTemplate.
  destruct (ownTemplate cropTaskTemplates (toLowerCase crop)) as [template|].
  - cbn [seasonOf isCompatible]. by destruct (_ || _).
  - by case_bool_decide.
Qed.

Lemma inherited_not_own :
  Forall (λ name, ownTemplate cropTaskTemplates name = None) inheritedNames.
Proof. repeat constructor. Qed.

Lemma create_calendar_iff (c : list ascii) (d : JsDate) :
  c ≠ [] →
  (∃ s h tasks, create (Some c) (Some d) = calendar c s d h tasks) ↔
  (∃ template,
     ownTemplate cropTaskTemplates (toLowerCase c) = Some template ∧
     (season template = yearRound ∨ season template = getSeasonFromDate d)).
Proof.
  intros Hc. rewrite create_given by done.
  destruct (ownTemplate _ _) as [template|].
  - destruct (bool_decide (season template = yearRound)
              || bool_decide (season template = getSeasonFromDate d)) eqn:Hcomp.
    + split; [|eauto]. intros _. exists template. split; [done|].
      apply orb_true_iff in Hcomp.
      destruct Hcomp as [H | H]; apply bool_decide_eq_true in H; tauto.
    + apply orb_false_iff in Hcomp as [H1 H2].
      apply bool_decide_eq_false in H1, H2. split; [by intros (? & ? & ? & ?)|].
      intros (t & [= <-] & [? | ?]); done.
  - split; [case_bool_decide; by intros (? & ? & ? & ?)|].
    by intros (? & ? & _).
Qed.

Lemma table_name_lower (entry : list ascii * CropTemplate) :
  entry ∈ cropTaskTemplates → toLowerCase entry.1 = entry.1 ∧ entry.1 ≠ [].
Proof.
  intros Hin. pose proof table_names_lower as H. rewrite Forall_forall in H.
  by destruct (H entry Hin) as (? & _ & ?).
Qed.

(** X23.  [POST /create] builds a calendar exactly for a crop of the
    table, named in any casing, whose season is year-round or the season
    of the sowing date, and the calendar carries what
    [generateTasksFromTemplate] returns; task generation never throws on
    this path, and a name that only hits an inherited member of the
    table object ("constructor") is answered as a season mismatch. *)
Theorem create_needs_known_crop_in_season :
  (∀ crop sowingDate, create crop sowingDate ≠ failed) ∧
  (∀ c d, c ≠ [] →
     (∃ s h tasks, create (Some c) (Some d) = calendar c s d h tasks) ↔
     (∃ template,
        ownTemplate cropTaskTemplates (toLowerCase c) = Some template ∧
        (season template = yearRound ∨ season template = getSeasonFromDate d))) ∧
  (∀ c d s h tasks,
     create (Some c) (Some d) = calendar c s d h tasks →
     generateTasksFromTemplate c d = returns tasks s h) ∧
  (∀ c d, c ≠ [] → toLowerCase c ∈ inheritedNames →
     create (Some c) (Some d) = seasonMismatch (getSeasonFromDate d) None).
Proof.
  split; [|split; [|split]].
  - intros [c|] [d|]; try done.
    destruct (decide (c = [])) as [-> | Hc]; [done|]. rewrite create_given by done.
    destruct (ownTemplate _ _); [by destruct (_ || _) | by case_bool_decide].
  - exact create_calendar_iff.
  - intros c d s h tasks. destruct (decide (c = [])) as [-> | Hc]; [done|].
    rewrite create_given by done.
    destruct (ownTemplate _ _) as [template|] eqn:Hown.
    + rewrite (generate_own _ _ _ Hown). destruct (_ || _); [|done].
      by intros [= <- <- <-].
    + by case_bool_decide.
  - intros c d Hc Hin. rewrite create_given by done.
    pose proof inherited_not_own as Hno. rewrite Forall_forall in Hno.
    rewrite (Hno _ Hin). by rewrite bool_decide_eq_true_2.
Qed.

Lemma create_needs_known_crop_in_season_witness :
  create (Some (chars "Constructor")) (Some sowingInMay)
    = seasonMismatch (getSeasonFromDate sowingInMay) None.
Proof.
  apply (proj2 (proj2 (proj2 create_needs_known_crop_in_season))
           (chars "Constructor") sowingInMay).
  - discriminate.
  - apply (bool_decide_unpack _). vm_compute. exact I.
Defined.

Lemma recommendedCrops_elem (selected : Season) (name : list ascii) :
  name ∈ recommendedCrops selected ↔
  ∃ template, (name, template) ∈ cropTaskTemplates ∧
              (season template = yearRound ∨ season template = selected).
Proof.
  unfold recommendedCrops. rewrite list_elem_of_fmap. split.
  - intros ([n t] & -> & [H Hin]%list_elem_of_filter). exists t. split; [done|].
    cbn [snd] in H. apply orb_true_iff in H.
    destruct H as [H | H]; apply bool_decide_eq_true in H; tauto.
  - intros (t & Hin & H). exists (name, t). split; [done|].
    apply list_elem_of_filter. split; [|done]. cbn [snd]. apply orb_true_iff.
    destruct H as [H | H]; [left | right]; by apply bool_decide_eq_true.
Qed.

(** X24.  The crops recommended for a date are the crops of the table
    for which [POST /create] builds a calendar at that date; for a date
    in May and for an invalid date that is sugarcane alone. *)
Theorem recommended_crops_are_creatable (d : JsDate) :
  (∀ name,
     name ∈ recommendedCrops (getSeasonFromDate d) ↔
     name ∈ map fst cropTaskTemplates ∧
     ∃ s h tasks, create (Some name) (Some d) = calendar name s d h tasks) ∧
  (getSeasonFromDate d = zaid ∨ getSeasonFromDate d = yearRound →
     recommendedCrops (getSeasonFromDate d) = [chars "sugarcane"]).
Proof.
  split.
  - intros name. rewrite recommendedCrops_elem. split.
    + intros (t & Hin & Hs).
      destruct (table_name_lower _ Hin) as (Hl & Hne). cbn [fst] in Hl, Hne.
      split; [apply list_elem_of_fmap; by exists (name, t)|].
      apply create_calendar_iff; [done|]. exists t. rewrite Hl. split; [|done].
      by apply ownTemplate_first; [apply table_names_distinct|].
    + intros [(entry & -> & Hin)%list_elem_of_fmap Hc].
      destruct (table_name_lower _ Hin) as (Hl & Hne).
      apply create_calendar_iff in Hc as (t & Hown & Hs); [|done].
      rewrite Hl in Hown. exists t. split; [by apply ownTemplate_elem | done].
  - intros [-> | ->]; reflexivity.
Qed.

Lemma recommended_crops_are_creatable_witness :
  recommendedCrops (getSeasonFromDate sowingInMay) = [chars "sugarcane"].
Proof.
  apply (proj2 (recommended_crops_are_creatable sowingInMay)).
  left. reflexivity.
Defined.

Lemma expand_invalid (template : CropTemplate) (l : list TaskTemplate) :
  flat_map (expand template None) l =
    map (λ tt, mkTask (type tt) (title tt) (describe (stage tt)) None (stage tt))
        (filter (λ tt, once tt = true) l).
Proof.
  induction l as [|tt l IH]; [done|]. cbn [flat_map]. rewrite IH, filter_cons.
  unfold expand, once. destruct (recurring tt) as [every|]; [|done].
  destruct (every =? 0); [done|]. by case_decide.
Qed.

(** X25.  An invalid sowing date is not refused: its season reads
    year-round, so [POST /create] builds a calendar for sugarcane (and
    for no other crop); the harvest date and every task date of that
    calendar are invalid, and the recurring tasks are missing. *)
Theorem invalid_sowing_date_is_accepted (d : JsDate) :
  getTime d = None → getMonth d = None →
  (∀ c, c ≠ [] →
     (∃ s h tasks, create (Some c) (Some d) = calendar c s d h tasks) ↔
     toLowerCase c = chars "sugarcane") ∧
  (∀ c s h tasks,
     create (Some c) (Some d) = calendar c s d h tasks →
     ∃ template,
       ownTemplate cropTaskTemplates (toLowerCase c) = Some template ∧
       h = None ∧
       tasks = map (λ tt, mkTask (type tt) (title tt) (describe (stage tt))
                                 None (stage tt))
                   (filter (λ tt, once tt = true) (CropCalendar.tasks template))).
Proof.
  intros Ht Hm.
  assert (getSeasonFromDate d = yearRound) as Hs
    by (unfold getSeasonFromDate; by rewrite Hm).
  split.
  - intros c Hc. rewrite create_calendar_iff by done. rewrite Hs. split.
    + intros (t & Hown & Hyr). apply ownTemplate_elem in Hown.
      assert (season t = yearRound) as Hy by tauto. clear Hyr.
      revert Hown Hy. generalize (toLowerCase c). intros key Hin.
      unfold cropTaskTemplates in Hin.
      repeat (apply elem_of_cons in Hin as [[= -> ->] | Hin]; [by try done|]).
      by apply elem_of_nil in Hin.
    + intros ->. eexists. split; [reflexivity|]. by left.
  - intros c s h tasks Hcal. destruct (decide (c = [])) as [-> | Hc]; [done|].
    rewrite create_given in Hcal by done.
    destruct (ownTemplate _ _) as [template|]; [|by case_bool_decide].
    destruct (_ || _); [|done]. rewrite Ht in Hcal. injection Hcal as <- <- <-.
    exists template. split; [done|]. split; [done|]. apply expand_invalid.
Qed.

Lemma invalid_sowing_date_is_accepted_witness :
  (∃ s h tasks, create (Some (chars "Sugarcane")) (Some invalidDate)
                = calendar (chars "Sugarcane") s invalidDate h tasks) ↔
  toLowerCase (chars "Sugarcane") = chars "sugarcane".
Proof.
  refine (proj1 (invalid_sowing_date_is_accepted invalidDate _ _)
            (chars "Sugarcane") _).
  - reflexivity.
  - reflexivity.
  - discriminate.
Defined.

Lemma ownTemplate_None (entries : list (list ascii * CropTemplate))
    (key : list ascii) :
  ownTemplate entries key = None ↔ key ∉ map fst entries.
Proof.
  induction entries as [|[name t] entries IH]; simpl.
  - split; [intros _; apply not_elem_of_nil | done].
  - rewrite not_elem_of_cons. case_bool_decide as Hn.
    + split; [done | intros [? _]; by subst].
    + rewrite IH. split; [intros ?; split; [congruence | done] | tauto].
Qed.

(** X29.  [generateTasksFromTemplate] returns exactly for the ten crop
    names of the table, in any casing; for every other name it throws:
    the error "Crop template not found for: " followed by the name as
    given, or a TypeError when the lower-cased name is a member that the
    table object inherits. *)
Theorem generate_throws_on_unknown_crop (crop : list ascii) (date : JsDate) :
  ((∃ tasks s h, generateTasksFromTemplate crop date = returns tasks s h) ↔
   toLowerCase crop ∈ map fst cropTaskTemplates) ∧
  (toLowerCase crop ∉ map fst cropTaskTemplates →
   generateTasksFromTemplate crop date =
     if bool_decide (toLowerCase crop ∈ inheritedNames) then throwsTypeError
     else throwsError (chars "Crop template not found for: " ++ crop)).
Proof.
  unfold generateTasksFromTemplate, lookupTemplate.
  destruct (ownTemplate cropTaskTemplates (toLowerCase crop)) as [t|] eqn:Hown.
  - assert (toLowerCase crop ∈ map fst cropTaskTemplates) as Hin.
    { apply ownTemplate_elem in Hown. apply list_elem_of_fmap. by eexists (_, t). }
    split; [split; eauto|done].
  - pose proof (proj1 (ownTemplate_None _ _) Hown) as Hn. split.
    + split; [|done]. case_bool_decide; by intros (? & ? & ? & ?).
    + intros _. by case_bool_decide.
Qed.

Lemma generate_throws_on_unknown_crop_witness :
  generateTasksFromTemplate (chars "Banana") sowingInMay =
    if bool_decide (toLowerCase (chars "Banana") ∈ inheritedNames)
    then throwsTypeError
    else throwsError (chars "Crop template not found for: " ++ chars "Banana").
Proof.
  apply (proj2 (generate_throws_on_unknown_crop (chars "Banana") sowingInMay)).
  apply (bool_decide_unpack _). vm_compute. exact I.
Defined.

End Seasons.

(** ** Stored calendars *)

Section StoredCalendars.
Import Js Completion.
Local Open Scope Z_scope.

Lemma setMidnight_days (localTZA a b : Z) :
  setMidnight localTZA a - setMidnight localTZA b =
    (localDay localTZA a - localDay localTZA b) * 86400000.
Proof.
  unfold setMidnight, localDay. change Forum.msPerDay with 86400000.
  pose proof (Z.div_mod (a + localTZA) 86400000).
  pose proof (Z.div_mod (b + localTZA) 86400000). lia.
Qed.

Lemma ceilDiv_days (k : Z) : Forum.ceilDiv (k * 86400000) (1000 * 60 * 60 * 24) = k.
Proof.
  unfold Forum.ceilDiv. change (1000 * 60 * 60 * 24) with 86400000.
  rewrite <- Z.mul_opp_l, Z.div_mul by done. lia.
Qed.

Lemma findOne_owner (calendars : gmap string Calendar) (calendarId user : string)
    (calendar : Calendar) :
  calendars !! calendarId = Some calendar →
  findOne calendars calendarId user =
    if bool_decide (userId calendar = user) then Some calendar else None.
Proof. intros H. unfold findOne. by rewrite H. Qed.

(** X26.  A task can be completed from the calendar day before its
    scheduled day on: for the owner's calendar and a task of it, the
    handler refuses exactly when the scheduled local day is two or more
    days after today's, telling how many days remain until the day
    before; otherwise it marks that task completed at the second clock
    reading, replaces the notes only by non-empty ones, and changes no
    other task and no other calendar. *)
Theorem completion_window
    (localTZA : Z) (user calendarId taskId : string) (newNotes : option (list ascii))
    (now now' : Z) (calendars : gmap string Calendar)
    (calendar : Calendar) (i : nat) (task : StoredTask) :
  calendars !! calendarId = Some calendar →
  _id calendar = calendarId → userId calendar = user →
  taskById (tasks calendar) taskId = Some (i, task) →
  let r := completeTask localTZA user calendarId taskId newNotes now now' calendars in
  let days := localDay localTZA (scheduledDate task) - localDay localTZA now in
  (2 ≤ days → r = (notYet (days - 1), calendars)) ∧
  (days ≤ 1 →
     ∃ task' calendar',
       r = (markedCompleted task', <[calendarId := calendar']> calendars) ∧
       completed task' = true ∧ completedDate task' = Some now' ∧
       task_id task' = task_id task ∧ scheduledDate task' = scheduledDate task ∧
       notes task' = (if Routes.present newNotes then newNotes else notes task) ∧
       tasks calendar' = <[i := task']> (tasks calendar) ∧
       userId calendar' = user ∧ active calendar' = active calendar).
Proof.
  intros Hc Hid Hu Ht r days. subst r. unfold completeTask.
  rewrite (findOne_owner _ _ _ _ Hc), bool_decide_eq_true_2 by done.
  rewrite Ht. cbv zeta. rewrite setMidnight_days, ceilDiv_days. fold days.
  split.
  - intros Hd. by rewrite (proj2 (Z.ltb_lt 1 days)) by lia.
  - intros Hd. rewrite (proj2 (Z.ltb_ge 1 days)) by lia. rewrite Hid.
    eexists _, _. split; [reflexivity|]. cbn.
    repeat split; try done. by destruct newNotes.
Qed.

Lemma completion_window_witness :
  completeTask 19800000 "u1" "c1" "t2" None 1715731200000 1715731200001
               sampleCalendars
    = (notYet 9, sampleCalendars).
Proof.
  refine (proj1 (completion_window 19800000 "u1" "c1" "t2" None 1715731200000
                   1715731200001 sampleCalendars sampleCalendar 1
                   (mkStoredTask "t2" 1716595200000 false None None) _ _ _ _) _).
  - vm_compute. reflexivity.
  - reflexivity.
  - reflexivity.
  - vm_compute. reflexivity.
  - vm_compute. discriminate.
Defined.

(** X27.  Only the owner reaches a calendar: when no calendar with the
    given id belongs to the requesting user, completing a task and
    deactivating answer 404 and change nothing. *)
Theorem only_the_owner_reaches_a_calendar
    (calendars : gmap string Calendar) (user calendarId : string) :
  (∀ calendar, calendars !! calendarId = Some calendar → userId calendar ≠ user) →
  (∀ localTZA taskId newNotes now now',
     completeTask localTZA user calendarId taskId newNotes now now' calendars
       = (calendarNotFound, calendars)) ∧
  deactivate user calendarId calendars = (Completion.notFound, calendars).
Proof.
  intros Hown.
  assert (findOne calendars calendarId user = None) as Hf.
  { unfold findOne. destruct (calendars !! calendarId) as [c|] eqn:Hc; [|done].
    by rewrite bool_decide_eq_false_2 by by apply Hown. }
  split; [intros; unfold completeTask | unfold deactivate]; by rewrite Hf.
Qed.

Lemma only_the_owner_reaches_a_calendar_witness :
  (∀ localTZA taskId newNotes now now',
     completeTask localTZA "u2" "c1" taskId newNotes now now' sampleCalendars
       = (calendarNotFound, sampleCalendars)) ∧
  deactivate "u2" "c1" sampleCalendars = (Completion.notFound, sampleCalendars).
Proof.
  apply (only_the_owner_reaches_a_calendar sampleCalendars "u2" "c1").
  intros calendar. unfold sampleCalendars. rewrite lookup_singleton.
  case_decide; [|discriminate]. intros [= <-]. discriminate.
Defined.

Lemma deactivate_owner
    (calendars : gmap string Calendar) (user calendarId : string)
    (calendar : Calendar) :
  calendars !! calendarId = Some calendar →
  _id calendar = calendarId → userId calendar = user →
  deactivate user calendarId calendars =
    (deactivated,
     <[calendarId := mkCalendar calendarId user false (tasks calendar)]> calendars).
Proof.
  intros Hc Hid Hu. unfold deactivate.
  rewrite (findOne_owner _ _ _ _ Hc), bool_decide_eq_true_2 by done.
  cbv zeta. cbn [_id userId]. by rewrite Hid, Hu.
Qed.

(** X28.  Deleting a calendar only deactivates it: the owner's calendar
    stays in the collection with its tasks and [active] false, no other
    calendar changes, deleting again changes nothing more, and the tasks
    of a deactivated calendar are completed or refused exactly as
    before, since completion does not look at [active]. *)
Theorem delete_only_deactivates
    (calendars : gmap string Calendar) (user calendarId : string)
    (calendar : Calendar) :
  calendars !! calendarId = Some calendar →
  _id calendar = calendarId → userId calendar = user →
  let r := deactivate user calendarId calendars in
  r.1 = deactivated ∧
  r.2 !! calendarId =
    Some (mkCalendar calendarId user false (tasks calendar)) ∧
  (∀ j, j ≠ calendarId → r.2 !! j = calendars !! j) ∧
  deactivate user calendarId r.2 = r ∧
  (∀ localTZA taskId newNotes now now',
     (completeTask localTZA user calendarId taskId newNotes now now' r.2).1 =
     (completeTask localTZA user calendarId taskId newNotes now now' calendars).1).
Proof.
  intros Hc Hid Hu r. subst r.
  rewrite (deactivate_owner _ _ _ _ Hc Hid Hu). cbn [fst snd].
  split; [done|]. split; [apply lookup_insert_eq|].
  split; [intros j Hj; by apply lookup_insert_ne|]. split.
  - rewrite (deactivate_owner _ user calendarId
               (mkCalendar calendarId user false (tasks calendar))
               (lookup_insert_eq _ _ _) eq_refl eq_refl).
    cbn [tasks]. by rewrite insert_insert_eq.
  - intros. unfold completeTask.
    rewrite (findOne_owner _ _ _ _ (lookup_insert_eq _ _ _)).
    rewrite (findOne_owner _ _ _ _ Hc). cbn [userId].
    rewrite Hu, !bool_decide_eq_true_2 by done. cbn [tasks].
    destruct (taskById (tasks calendar) taskId) as [[i task]|]; [|done].
    cbv zeta. by destruct (1 <? _).
Qed.

Lemma delete_only_deactivates_witness :
  let r := deactivate "u1" "c1" sampleCalendars in
  r.1 = deactivated ∧
  r.2 !! "c1" = Some (mkCalendar "c1" "u1" false (tasks sampleCalendar)) ∧
  (∀ j, j ≠ "c1" → r.2 !! j = sampleCalendars !! j) ∧
  deactivate "u1" "c1" r.2 = r ∧
  (∀ localTZA taskId newNotes now now',
     (completeTask localTZA "u1" "c1" taskId newNotes now now' r.2).1 =
     (completeTask localTZA "u1" "c1" taskId newNotes now now' sampleCalendars).1).
Proof.
  apply (delete_only_deactivates sampleCalendars "u1" "c1" sampleCalendar).
  - vm_compute. reflexivity.
  - reflexivity.
  - reflexivity.
Defined.

End StoredCalendars.

Section VoteRuns.
Import Votes.

Lemma toggle_run (requests votes : list string) :
  NoDup votes →
  NoDup (fold_left toggle requests votes) ∧
  ∀ u, u ∈ fold_left toggle requests votes ↔
       xorb (bool_decide (u ∈ votes)) (Nat.odd (requestsBy u requests)) = true.
Proof.
  revert votes. induction requests as [|r requests IH]; intros votes Hnd.
  - split; [done|]. intros u. cbn. rewrite xorb_false_r.
    by rewrite bool_decide_eq_true.
  - destruct (toggle_NoDup votes r Hnd) as [Hnd' Hflip].
    destruct (IH _ Hnd') as [Hfin Hmem]. cbn [fold_left]. split; [done|].
    intros u. rewrite Hmem. unfold requestsBy. rewrite filter_cons.
    case_decide as Hr.
    + subst r. cbn [length]. rewrite Nat.odd_succ, <- Nat.negb_odd.
      rewrite (bool_decide_ext _ _ Hflip).
      destruct (decide (u ∈ votes)) as [Hu | Hu].
      * rewrite (bool_decide_eq_false_2 (u ∉ votes)) by tauto.
        rewrite (bool_decide_eq_true_2 (u ∈ votes)) by done.
        by destruct (Nat.odd _).
      * rewrite (bool_decide_eq_true_2 (u ∉ votes)) by done.
        rewrite (bool_decide_eq_false_2 (u ∈ votes)) by done.
        by destruct (Nat.odd _).
    + assert (u ≠ r) as Hne by congruence.
      by rewrite (bool_decide_ext _ _ (toggle_others votes r u Hne)).
Qed.

Lemma upvoteAll_lookup (postId : string) (requests : list string)
    (posts : gmap string ForumPost) (post : ForumPost) :
  posts !! postId = Some post → _id post = postId →
  upvoteAll postId requests posts !! postId =
    Some (mkForumPost postId (fold_left toggle requests (upvotes post))
                      (replies post)).
Proof.
  revert posts post. induction requests as [|r requests IH];
    intros posts post Hp Hid.
  - cbn. rewrite Hp, <- Hid. by destruct post.
  - unfold upvoteAll. cbn [fold_left].
    rewrite (upvotePost_stored _ _ _ _ Hp Hid). cbn [snd].
    fold (upvoteAll postId requests
            (<[postId := mkForumPost postId (toggle (upvotes post) r)
                                     (replies post)]> posts)).
    rewrite (IH _ (mkForumPost postId (toggle (upvotes post) r) (replies post))
               (lookup_insert_eq _ _ _) eq_refl).
    done.
Qed.

(** X30.  One vote per user, whatever the requests: after any sequence
    of upvote requests on a post that starts without votes, the voters
    are distinct and a user is among them exactly when that user sent an
    odd number of the requests. *)
Theorem voters_are_the_odd_requesters
    (postId : string) (requests : list string)
    (posts : gmap string ForumPost) (post : ForumPost) :
  posts !! postId = Some post → _id post = postId → upvotes post = [] →
  ∃ post',
    upvoteAll postId requests posts !! postId = Some post' ∧
    NoDup (upvotes post') ∧
    replies post' = replies post ∧
    ∀ u, u ∈ upvotes post' ↔ Nat.odd (requestsBy u requests) = true.
Proof.
  intros Hp Hid Hv. eexists. split; [by apply upvoteAll_lookup|].
  cbn [upvotes replies]. rewrite Hv.
  destruct (toggle_run requests [] (NoDup_nil_2)) as [Hnd Hmem].
  split; [done|]. split; [done|]. intros u. rewrite Hmem.
  by rewrite bool_decide_eq_false_2 by apply not_elem_of_nil.
Qed.

Lemma voters_are_the_odd_requesters_witness :
  ∃ post',
    upvoteAll "p0" ["u1"; "u2"; "u1"; "u1"] {[ "p0" := mkForumPost "p0" [] [] ]}
      !! "p0" = Some post' ∧
    NoDup (upvotes post') ∧
    replies post' = [] ∧
    ∀ u, u ∈ upvotes post' ↔
         Nat.odd (requestsBy u ["u1"; "u2"; "u1"; "u1"]) = true.
Proof.
  apply (voters_are_the_odd_requesters "p0" ["u1"; "u2"; "u1"; "u1"]
           {[ "p0" := mkForumPost "p0" [] [] ]} (mkForumPost "p0" [] [])).
  - vm_compute. reflexivity.
  - reflexivity.
  - reflexivity.
Defined.

End VoteRuns.
